(** * xhr-fetch-interceptor: a shallow embedding of [src/index.ts]

    The development follows the source file top-down:

    - [Js]: the fragment of JavaScript values the interceptor touches
      (strings, JSON data, truthiness, [JSON.stringify]);
    - [Host]: the collaborators the page provides ([new URL], [JSON.parse],
      [location.origin], the native XHR and fetch transports);
    - the matcher ([isTargetUrl], [isMethodEqual], [genUrl]);
    - the rule registry ([addConfig]) and the lifecycle ([construct],
      [restore]);
    - the legacy adapter ([hijackXHR_open], [hijackXHR_send]) and the modern
      adapter ([hijackFetch]).

    Effects are explicit.  Everything the interceptor does to the outside
    world (native calls, hook invocations, invocations of the page's
    completion handler) is appended to a trace of [Event]s; a thrown
    exception is the [Throw] result of the computation.  The process-wide
    state of the class (the patched entry points, the static flag, the
    module-level [INSTANCE], the console) is the record [Realm].

    Conventions.

    - A hook is the page's function; the model takes it as a function of
      its arguments and records each invocation, with the position of its
      rule in the registry.
    - [async]/[await]: within one call of a patched function the awaited
      steps run in program order, and the browser dispatches the events of
      a request one after the other, so a call is a sequential computation.
      A superseding request is run where the completion loop sends it; the
      request it supersedes has received its last event by then.
    - A superseding request is sent through the patched [send], so it can
      be superseded in turn, without bound; [hijackXHR_send] takes the
      number of nested supersessions it may follow and ends in [OutOfFuel]
      beyond it.
    - The registry does not change while a call is handled, an XHR object
      serves one call, and the page reads a completion in the
      [onreadystatechange] handler it assigned before [send].
    - The browser's [responseText] accessor throws unless [responseType]
      is the empty string or [text]; the adapter's reads of it are
      fallible ([read_responseText]).  For such an object the
      [responseText] of a [Snapshot] is what the accessor would hold, and
      is only reached by reads that succeed.
    - The header list of a [Response] is given as script reads it from
      the [Headers] object: names in lower case, in ascending order, the
      values of a repeated name joined.  No [Set-Cookie] header is among
      them (script never sees one). *)

From Stdlib Require Import String Ascii ZArith Bool Lia DecimalString.
From stdpp Require Import base list option sorting.

Set Warnings "-register-all".
Local Open Scope string_scope.
Local Open Scope Z_scope.

(* ===================================================================== *)
(** * JavaScript values *)
(* ===================================================================== *)

Module Js.

(** Values that travel through the hooks and the response fields.
    [JNum] covers the integer-valued numbers; strings are byte strings. *)
Inductive JsVal : Type :=
| JUndefined
| JNull
| JBool (b : bool)
| JNum (z : Z)
| JStr (s : string)
| JArr (items : list JsVal)
| JObj (fields : list (string * JsVal)).

(** [typeof v === 'string'] *)
Definition is_string (v : JsVal) : bool :=
  match v with JStr _ => true | _ => false end.

(** JavaScript truthiness, as used by [if (newBody)] and [if (result.data)]. *)
Definition truthy (v : JsVal) : bool :=
  match v with
  | JUndefined | JNull => false
  | JBool b => b
  | JNum z => negb (z =? 0)
  | JStr s => negb (String.eqb s "")
  | JArr _ | JObj _ => true
  end.

Definition dquote : ascii := "034"%char.
Definition backslash : ascii := "092"%char.

Definition hex_digit (n : nat) : ascii :=
  match n with
  | 0%nat => "0" | 1%nat => "1" | 2%nat => "2" | 3%nat => "3"
  | 4%nat => "4" | 5%nat => "5" | 6%nat => "6" | 7%nat => "7"
  | 8%nat => "8" | 9%nat => "9" | 10%nat => "a" | 11%nat => "b"
  | 12%nat => "c" | 13%nat => "d" | 14%nat => "e" | _ => "f"
  end%char.

(** The escape [JSON.stringify] emits for one character of a string. *)
Definition escape_char (c : ascii) : string :=
  let n := nat_of_ascii c in
  if Nat.eqb n 34 then String backslash (String dquote "")
  else if Nat.eqb n 92 then String backslash (String backslash "")
  else if Nat.eqb n 8 then String backslash "b"
  else if Nat.eqb n 12 then String backslash "f"
  else if Nat.eqb n 10 then String backslash "n"
  else if Nat.eqb n 13 then String backslash "r"
  else if Nat.eqb n 9 then String backslash "t"
  else if Nat.ltb n 32 then
    String backslash
      ("u00" ++ String (hex_digit (Nat.div n 16)) (String (hex_digit (Nat.modulo n 16)) ""))
  else String c "".

Fixpoint escape (s : string) : string :=
  match s with
  | EmptyString => ""
  | String c rest => escape_char c ++ escape rest
  end.

(** [JSON.stringify] applied to a string: the quoted, escaped text. *)
Definition quote (s : string) : string :=
  String dquote (escape s ++ String dquote "").

Definition string_of_Z (z : Z) : string :=
  NilZero.string_of_int (Z.to_int z).

Fixpoint join (sep : string) (parts : list string) : string :=
  match parts with
  | [] => ""
  | [p] => p
  | p :: rest => p ++ sep ++ join sep rest
  end.

(** [JSON.stringify v]; [None] is the JavaScript [undefined] that
    [JSON.stringify(undefined)] returns.  Inside an array [undefined]
    prints as [null]; inside an object the field is left out. *)
Fixpoint stringify (v : JsVal) : option string :=
  match v with
  | JUndefined => None
  | JNull => Some "null"
  | JBool true => Some "true"
  | JBool false => Some "false"
  | JNum z => Some (string_of_Z z)
  | JStr s => Some (quote s)
  | JArr items =>
      let texts :=
        (fix go (l : list JsVal) : list string :=
           match l with
           | [] => []
           | x :: l' =>
               match stringify x with
               | Some t => t
               | None => "null"
               end :: go l'
           end) items in
      Some ("[" ++ join "," texts ++ "]")
  | JObj fields =>
      let texts :=
        (fix go (l : list (string * JsVal)) : list string :=
           match l with
           | [] => []
           | (k, x) :: l' =>
               match stringify x with
               | Some t => (quote k ++ ":" ++ t) :: go l'
               | None => go l'
               end
           end) fields in
      Some ("{" ++ join "," texts ++ "}")
  end.

(** [JSON.stringify] as a JavaScript value. *)
Definition JSON_stringify (v : JsVal) : JsVal :=
  match stringify v with
  | Some s => JStr s
  | None => JUndefined
  end.

Definition lower_ascii (c : ascii) : ascii :=
  let n := nat_of_ascii c in
  if Nat.leb 65 n && Nat.leb n 90 then ascii_of_nat (n + 32) else c.

(** [s.toLowerCase()] / [s.toLocaleLowerCase()] on ASCII text. *)
Fixpoint toLowerCase (s : string) : string :=
  match s with
  | EmptyString => EmptyString
  | String c rest => String (lower_ascii c) (toLowerCase rest)
  end.

(** [s.startsWith('/')] *)
Definition startsWith_slash (s : string) : bool := String.prefix "/" s.

End Js.
Export Js.

Local Open Scope list_scope.

(* ===================================================================== *)
(** * Data model ([types.ts]) *)
(* ===================================================================== *)

(** The fields of a parsed [URL] object the interceptor reads. *)
Record URL : Type := mkURL {
  href : string;
  protocol : string;
  host : string;
  pathname : string;
  search : string;
  hash : string
}.

(** [url.toString()] *)
Definition URL_toString (u : URL) : string := href u.

Record IRequestInfo : Type := mkRequestInfo {
  ri_url : URL;
  ri_data : JsVal
}.

(** [BeforeSendCallBackResult]: [{ url?: URL; data?: any }]; an absent
    [data] is [JUndefined]. *)
Record BeforeSendCallBackResult : Type := mkBeforeSendResult {
  bs_url : option URL;
  bs_data : JsVal
}.

(** Second component of [IPreCallbackResult]: [{ uri?: string; data?: any }]. *)
Record PreReplacement : Type := mkPreReplacement {
  pr_uri : option string;
  pr_data : JsVal
}.

Definition IPreCallbackResult : Type := (bool * PreReplacement)%type.

(** [string | RegExp].  A regular expression is an object: it has an
    identity ([re_id], what [===] compares) and a [test] method, taken here
    without the [g]/[y] flags, so that [test] does not depend on
    [lastIndex]. *)
Inductive UrlTarget : Type :=
| TString (s : string)
| TRegExp (re_id : nat) (test : string -> bool).

(** Hooks are the page's functions; the model takes their input/output
    behaviour and records every invocation in the trace. *)
Record InjectConfig : Type := mkConfig {
  url : UrlTarget;
  method : string;
  callback : option (JsVal -> unit);
  preCallback : option (JsVal -> IRequestInfo -> IPreCallbackResult);
  lastCallback : option (JsVal -> IRequestInfo -> JsVal);
  beforeSendCallback : option (IRequestInfo -> option BeforeSendCallBackResult)
}.

Record Header : Type := mkHeader {
  h_name : string;
  h_value : string
}.

(** [XMLHttpRequestProxy]: the seven observable completion fields. *)
Record XMLHttpRequestProxy : Type := mkProxy {
  status : Z;
  response : JsVal;
  statusText : string;
  responseType : string;
  responseText : JsVal;
  responseXML : JsVal;
  readyState : Z
}.

(** What the native transport is asked to send. *)
Record XhrRequest : Type := mkXhrRequest {
  rq_method : option string;
  rq_uri : option string;
  rq_headers : list Header;
  rq_body : JsVal;
  rq_responseType : string
}.

(** The native fields of an XHR object when a [readystatechange] event is
    dispatched. *)
Record Snapshot : Type := mkSnapshot {
  s_readyState : Z;
  s_status : Z;
  s_statusText : string;
  s_response : JsVal;
  s_responseText : JsVal;
  s_responseXML : JsVal;
  s_responseURL : string
}.

(** A fetch [Response], with its body already buffered as text. *)
Record Response : Type := mkResponse {
  rs_url : string;
  rs_status : Z;
  rs_statusText : string;
  rs_headers : list Header;
  rs_body : string
}.

(** [RequestInfo | URL], the first argument of [fetch]. *)
Inductive FetchInput : Type :=
| InputString (s : string)
| InputURL (u : URL)
| InputRequest (request_url : string).

(** [RequestInit]; fields other than [method] and [body] are carried along
    untouched in [init_rest]. *)
Record RequestInit : Type := mkInit {
  init_method : option string;
  init_body : JsVal;
  init_rest : list (string * JsVal)
}.

Inductive Error : Type :=
| TypeError_InvalidURL (input : string)
| RangeError_status (st : Z)
| TypeError_nullBodyStatus (st : Z)
| NetworkError
| InvalidStateError.

(** Everything observable from outside the interceptor. *)
Inductive Event : Type :=
| NativeOpen (m uri : option string)
| NativeSetRequestHeader (name value : string)
| NativeSend (rq : XhrRequest)
| NativeFetch (input : FetchInput) (init : option RequestInit)
| BeforeSendCalled (rule : nat) (info : IRequestInfo)
| PreCalled (rule : nat) (data : JsVal) (info : IRequestInfo)
| CallbackCalled (rule : nat) (data : JsVal)
| LastCalled (rule : nat) (data : JsVal) (info : IRequestInfo)
| HandlerCalled (view : XMLHttpRequestProxy)
| UnhandledRejection (e : Error).

(** An [onreadystatechange] handler, by what it makes observable when it is
    called on an object whose fields read as [view]. *)
Definition Handler : Type := XMLHttpRequestProxy -> list Event.

(** The page's own handler: it observes the fields. *)
Definition page_handler : Handler := fun view => [HandlerCalled view].

(* ===================================================================== *)
(** * The host environment *)
(* ===================================================================== *)

(** The collaborators the browser provides.  [parse_URL s] is [new URL(s)]
    ([None] when it throws), [JSON_parse s] is [JSON.parse(s)] ([None] when
    it throws); [xhr_network] gives the [readystatechange] events the
    browser dispatches for a request after [send], [fetch_network] the
    response the native [fetch] resolves to ([None] when it rejects). *)
Class Host : Type := mkHost {
  location_origin : string;
  parse_URL : string -> option URL;
  JSON_parse : string -> option JsVal;
  xhr_network : XhrRequest -> list Snapshot;
  fetch_network : FetchInput -> option RequestInit -> option Response
}.

(* ===================================================================== *)
(** * Computations: a trace and a result *)
(* ===================================================================== *)

Inductive Res (A : Type) : Type :=
| Ok (a : A)
| Throw (e : Error)
| OutOfFuel.
Arguments Ok {A} a.
Arguments Throw {A} e.
Arguments OutOfFuel {A}.

(** A computation appends events to the trace and ends in a result. *)
Definition M (A : Type) : Type := (list Event * Res A)%type.

Definition ret {A} (a : A) : M A := ([], Ok a).
Definition emit (evs : list Event) : M unit := (evs, Ok tt).
Definition out_of_fuel {A} : M A := ([], OutOfFuel).

Definition bind {A B} (c : M A) (k : A -> M B) : M B :=
  match c with
  | (t, Ok a) => let '(t', r) := k a in (t ++ t', r)
  | (t, Throw e) => (t, Throw e)
  | (t, OutOfFuel) => (t, OutOfFuel)
  end.

(** A result that is not a trace-producing computation. *)
Definition lift {A} (r : Res A) : M A := ([], r).

(** Sequencing on plain results. *)
Definition and_then {A B} (r : Res A) (k : A -> Res B) : Res B :=
  match r with
  | Ok a => k a
  | Throw e => Throw e
  | OutOfFuel => OutOfFuel
  end.

Declare Scope comp_scope.
Delimit Scope comp_scope with comp.
Notation "x <- c ;; k" := (bind c (fun x => k))
  (at level 100, c at next level, right associativity) : comp_scope.

Notation "c ;; k" := (bind c (fun _ => k))
  (at level 100, right associativity) : comp_scope.
Local Open Scope comp_scope.

Definition trace_of {A} (c : M A) : list Event := fst c.
Definition result_of {A} (c : M A) : Res A := snd c.

(* ===================================================================== *)
(** * Matcher *)
(* ===================================================================== *)

Section Matcher.
Context `{H : Host}.

(** [new URL(s)] *)
Definition new_URL (s : string) : Res URL :=
  match parse_URL s with
  | Some u => Ok u
  | None => Throw (TypeError_InvalidURL s)
  end.

(** [genUrl]: complete a leading-slash URL with the page origin. *)
Definition genUrl (u : string) : Res URL :=
  if startsWith_slash u then new_URL (String.append location_origin u) else new_URL u.

(** The [try] block of [isTargetUrl]. *)
Definition isTargetUrl_try (u t : string) : Res bool :=
  and_then (new_URL u) (fun urlObj =>
  and_then (new_URL t) (fun targetUrlObj =>
  Ok (String.eqb (host urlObj) (host targetUrlObj)
      && String.eqb (protocol urlObj) (protocol targetUrlObj)
      && String.eqb (pathname urlObj) (pathname targetUrlObj)))).

(** [isTargetUrl]: a pattern is tested against the URL as given; a string
    target goes through the [try] block, whose [catch] answers [false]. *)
Definition isTargetUrl (u : string) (targetUrl : UrlTarget) : bool :=
  match targetUrl with
  | TRegExp _ test => test u
  | TString t =>
      match isTargetUrl_try u t with
      | Ok b => b
      | _ => false
      end
  end.

(** [isMethodEqual]: [method?.toLocaleLowerCase() === targetMethod?.toLocaleLowerCase()]. *)
Definition isMethodEqual (m : option string) (targetMethod : string) : bool :=
  match m with
  | Some s => String.eqb (toLowerCase s) (toLowerCase targetMethod)
  | None => false
  end.

(** The condition both adapters test for each rule. *)
Definition rule_matches (u : string) (m : option string) (config : InjectConfig) : bool :=
  isTargetUrl u (url config) && isMethodEqual m (method config).

End Matcher.

(* ===================================================================== *)
(** * Rule registry *)
(* ===================================================================== *)

(** [a === b] on [string | RegExp]: strings by value, patterns by identity. *)
Definition target_eqb (a b : UrlTarget) : bool :=
  match a, b with
  | TString s, TString t => String.eqb s t
  | TRegExp i _, TRegExp j _ => Nat.eqb i j
  | _, _ => false
  end.

(** [cf.url === newCf.url && cf.method === newCf.method] *)
Definition same_key (cf newCf : InjectConfig) : bool :=
  target_eqb (url cf) (url newCf) && String.eqb (method cf) (method newCf).

(** [InjectConfig | InjectConfig[]] *)
Inductive Options : Type :=
| Single (config : InjectConfig)
| Batch (configs : list InjectConfig).

(** [Array.isArray(options) ? options : [options]] *)
Definition toArray (options : Options) : list InjectConfig :=
  match options with
  | Single c => [c]
  | Batch cs => cs
  end.

(** One iteration of the [forEach] in [addConfig]. *)
Definition addOne (interceptConfigs : list InjectConfig) (newCf : InjectConfig)
  : list InjectConfig :=
  let isExist := existsb (fun cf => same_key cf newCf) interceptConfigs in
  if negb isExist then interceptConfigs ++ [newCf] else interceptConfigs.

(** [addConfig], as a function of the registry it updates. *)
Definition addConfig (interceptConfigs : list InjectConfig) (config : Options)
  : list InjectConfig :=
  fold_left addOne (toArray config) interceptConfigs.

(* ===================================================================== *)
(** * Lifecycle *)
(* ===================================================================== *)

(** A function value stored in a transport entry point: the browser's own,
    the wrapper installed by the session [self], or somebody else's patch. *)
Inductive Fn : Type :=
| NativeFn
| HijackedBy (self : nat)
| ForeignFn (tag : nat).

(** The fields of an instance of the class.  The three [original*] fields
    are declared without initialiser, hence [None] (undefined) until the
    constructor assigns them. *)
Record XHRAndFetchInterceptor : Type := mkInterceptor {
  interceptConfigs : list InjectConfig;
  originalXHRopen : option Fn;
  originalXHRsend : option Fn;
  originalFetch : option Fn
}.

(** The process-wide state: the three entry points, the static flag, the
    module variable [INSTANCE], the allocated instances and the warnings
    written to the console. *)
Record Realm : Type := mkRealm {
  XMLHttpRequest_open : option Fn;
  XMLHttpRequest_send : option Fn;
  window_fetch : option Fn;
  isHijacked : bool;
  INSTANCE : option nat;
  objects : list XHRAndFetchInterceptor;
  console : list string
}.

Definition already_activated : string :=
  "XHRAndFetchInterceptor: Already activated, avoid duplicate interception.".

(** The object [new] allocates before the constructor body runs. *)
Definition blank_instance : XHRAndFetchInterceptor :=
  mkInterceptor [] None None None.

(** [INSTANCE.addConfig(options)] on the heap. *)
Definition addConfig_at (i : nat) (options : Options)
    (objs : list XHRAndFetchInterceptor) : list XHRAndFetchInterceptor :=
  alter (fun o => mkInterceptor (addConfig (interceptConfigs o) options)
                    (originalXHRopen o) (originalXHRsend o) (originalFetch o))
        i objs.

(** [new XHRAndFetchInterceptor(options)]: the reference the expression
    evaluates to, and the realm afterwards. *)
Definition construct (options : Options) (g : Realm) : nat * Realm :=
  let this := length (objects g) in
  let objs := objects g ++ [blank_instance] in
  if isHijacked g then
    match INSTANCE g with
    | Some i =>
        (i, mkRealm (XMLHttpRequest_open g) (XMLHttpRequest_send g) (window_fetch g)
              (isHijacked g) (INSTANCE g) (addConfig_at i options objs) (console g))
    | None =>
        (this, mkRealm (XMLHttpRequest_open g) (XMLHttpRequest_send g) (window_fetch g)
                 (isHijacked g) (INSTANCE g) objs (console g ++ [already_activated]))
    end
  else
    let me := mkInterceptor (toArray options)
                (XMLHttpRequest_open g) (XMLHttpRequest_send g) (window_fetch g) in
    (this, mkRealm (Some (HijackedBy this)) (Some (HijackedBy this)) (Some (HijackedBy this))
             true (Some this) (objects g ++ [me]) (console g)).

(** [restore()] called on the instance [this]. *)
Definition restore (this : nat) (g : Realm) : Realm :=
  match objects g !! this with
  | Some o =>
      mkRealm (originalXHRopen o) (originalXHRsend o) (originalFetch o)
        (isHijacked g) (INSTANCE g) (objects g) (console g)
  | None => g
  end.

(** A realm in which nothing has been patched yet. *)
Definition pristine : Realm :=
  mkRealm (Some NativeFn) (Some NativeFn) (Some NativeFn) false None [] [].


(* ===================================================================== *)
(** * Legacy transport adapter ([hijackXHR]) *)
(* ===================================================================== *)

(** An XHR object as the adapter sees it: the two fields [open] adds, the
    header map ([None] until the first patched [open] creates it; a JS [Map]
    keeps insertion order, hence an association list), the header list the
    native object holds since its last native [open], the [responseType] the
    page chose and the page's completion handler. *)
Record XMLHttpRequestWithUrl : Type := mkXhr {
  x_uri : option string;
  x_method : option string;
  x_requestHeaders : option (list (string * Header));
  x_nativeHeaders : list Header;
  x_responseType : string;
  x_onreadystatechange : option Handler
}.

(** [new XMLHttpRequest()] *)
Definition new_XMLHttpRequest : XMLHttpRequestWithUrl :=
  mkXhr None None None [] "" None.

(** [xhr.onreadystatechange = h] *)
Definition set_onreadystatechange (this : XMLHttpRequestWithUrl) (h : option Handler)
  : XMLHttpRequestWithUrl :=
  mkXhr (x_uri this) (x_method this) (x_requestHeaders this) (x_nativeHeaders this)
    (x_responseType this) h.



(** [map.set(k, v)]: an existing key keeps its position. *)
Fixpoint Map_set {V : Type} (k : string) (v : V) (m : list (string * V))
  : list (string * V) :=
  match m with
  | [] => [(k, v)]
  | (k', v') :: rest =>
      if String.eqb k' k then (k, v) :: rest else (k', v') :: Map_set k v rest
  end.

(** [map.get(k)] *)
Fixpoint Map_get {V : Type} (k : string) (m : list (string * V)) : option V :=
  match m with
  | [] => None
  | (k', v') :: rest => if String.eqb k' k then Some v' else Map_get k rest
  end.

(** The browser's [open]: it (re)initialises the request and empties the
    header list. *)
Definition native_open (this : XMLHttpRequestWithUrl) (m uri : option string)
  : M XMLHttpRequestWithUrl :=
  emit [NativeOpen m uri];;
  ret (mkXhr (x_uri this) (x_method this) (x_requestHeaders this) []
         (x_responseType this) (x_onreadystatechange this)).

(** The patched [XMLHttpRequest.prototype.open]. *)
Definition hijackXHR_open (this : XMLHttpRequestWithUrl) (m uri : option string)
  : M XMLHttpRequestWithUrl :=
  let headers :=
    match x_requestHeaders this with
    | None => Some []
    | Some hs => Some hs
    end in
  native_open
    (mkXhr uri m headers (x_nativeHeaders this) (x_responseType this)
       (x_onreadystatechange this))
    m uri.

(** [this.setRequestHeader(name, value)]: the recording wrapper [open]
    installed, when there is one, then the browser's own. *)
Definition setRequestHeader (this : XMLHttpRequestWithUrl) (name value : string)
  : M XMLHttpRequestWithUrl :=
  let headers :=
    match x_requestHeaders this with
    | Some hs => Some (Map_set (toLowerCase name) (mkHeader name value) hs)
    | None => None
    end in
  emit [NativeSetRequestHeader name value];;
  ret (mkXhr (x_uri this) (x_method this) headers
         (x_nativeHeaders this ++ [mkHeader name value])
         (x_responseType this) (x_onreadystatechange this)).

(** The browser's [responseText] accessor throws an [InvalidStateError]
    unless [responseType] is the empty string or [text]. *)
Definition responseText_readable (responseType : string) : bool :=
  String.eqb responseType "" || String.eqb responseType "text".

(** What serves a read of [xhr.responseText]: the browser's accessor, or a
    property of the script's making (a field of the shadow record, or the
    accessor [Object.defineProperties] put on the object), which returns
    what it holds. *)
Inductive TextAccess : Type :=
| BrowserAccessor
| OwnProperty.

(** [xhr.responseText] *)
Definition read_responseText (access : TextAccess) (xhr : XMLHttpRequestProxy)
  : Res JsVal :=
  match access with
  | OwnProperty => Ok (responseText xhr)
  | BrowserAccessor =>
      if responseText_readable (responseType xhr) then Ok (responseText xhr)
      else Throw InvalidStateError
  end.

(** [getResponseData]; [xhr.response] can be read whatever the
    [responseType]. *)
Definition getResponseData (access : TextAccess) (xhr : XMLHttpRequestProxy)
  : Res JsVal :=
  if String.eqb (responseType xhr) "json" then Ok (response xhr)
  else read_responseText access xhr.

(** The [savedHeaders.forEach] of [send]. *)
Fixpoint reapply_headers (savedHeaders : list (string * Header))
    (this : XMLHttpRequestWithUrl) : M XMLHttpRequestWithUrl :=
  match savedHeaders with
  | [] => ret this
  | (_, header) :: rest =>
      if negb (String.eqb (toLowerCase (h_name header)) "content-length") then
        bind (setRequestHeader this (h_name header) (h_value header))
          (reapply_headers rest)
      else reapply_headers rest this
  end.

(** The state one [send] closes over: the shadow record [proxy], and
    whether [response] and [responseText] of the object have been redefined
    as accessors onto it.  (The other five fields are redefined only by
    [newRequest.onreadystatechange], after which the object receives no
    further event.) *)
Record Shadow : Type := mkShadow {
  proxy : XMLHttpRequestProxy;
  redefined : bool
}.

Definition initial_proxy : XMLHttpRequestProxy :=
  mkProxy 0 JNull "" "" (JStr "") JNull 0.

Definition initial_shadow : Shadow := mkShadow initial_proxy false.

(** What serves [this.responseText]: the browser's accessor until lines
    194-197 redefine the property. *)
Definition text_access (sh : Shadow) : TextAccess :=
  if redefined sh then OwnProperty else BrowserAccessor.

(** The seven fields as they read on the object during the dispatch of the
    event [s]. *)
Definition view_of (this : XMLHttpRequestWithUrl) (s : Snapshot) (sh : Shadow)
  : XMLHttpRequestProxy :=
  if redefined sh then
    mkProxy (s_status s) (response (proxy sh)) (s_statusText s) (x_responseType this)
      (responseText (proxy sh)) (s_responseXML s) (s_readyState s)
  else
    mkProxy (s_status s) (s_response s) (s_statusText s) (x_responseType this)
      (s_responseText s) (s_responseXML s) (s_readyState s).

(** [proxy.response = v; proxy.responseText = JSON.stringify(v)] *)
Definition set_body (p : XMLHttpRequestProxy) (v : JsVal) : XMLHttpRequestProxy :=
  mkProxy (status p) v (statusText p) (responseType p) (JSON_stringify v)
    (responseXML p) (readyState p).

(** The six assignments that copy the superseding request into the shadow. *)
Definition copy_from (p newRequest : XMLHttpRequestProxy) : XMLHttpRequestProxy :=
  mkProxy (status newRequest) (response newRequest) (statusText newRequest)
    (responseType p) (responseText newRequest) (responseXML newRequest)
    (readyState newRequest).

Definition call_handler (h : option Handler) (view : XMLHttpRequestProxy) : M unit :=
  match h with
  | Some f => emit (f view)
  | None => ret tt
  end.


(** [newRequest.onreadystatechange]: the arrow function installed on the
    superseding request, run when the fields of that request read as
    [newRequest].  The request is the object of line 146, on which no
    [responseType] is ever set: the reads of lines 151-156 succeed.  The
    function is [async]: what it throws rejects a promise nobody holds. *)
Definition supersede_handler (i : nat) (config : InjectConfig)
    (requestInfo : IRequestInfo) (p : XMLHttpRequestProxy)
    (originalOnreadystatechange : option Handler) : Handler :=
  fun newRequest =>
    if readyState newRequest =? 4 then
      let p1 := copy_from p newRequest in
      match lastCallback config with
      | Some hook =>
          match getResponseData OwnProperty p1 with
          | Ok data =>
              LastCalled i data requestInfo
                :: match originalOnreadystatechange with
                   | Some f => f (set_body p1 (hook data requestInfo))
                   | None => []
                   end
          | Throw e => [UnhandledRejection e]
          | OutOfFuel => []
          end
      | None =>
          match originalOnreadystatechange with
          | Some f => f p1
          | None => []
          end
      end
    else [].

(** How one run of the completion loop ends. *)
Inductive LoopExit : Type :=
| Completed (sh : Shadow)
| Superseded.

Section LegacyAdapter.
Context `{H : Host}.
Variable configs : list InjectConfig.
(** [send] on the patched prototype, for the request the loop creates. *)
Variable resend : XMLHttpRequestWithUrl -> JsVal -> M unit.

(** [requestUrl]; an object that was never opened has no [uri], and the
    [undefined] then read is the text "undefined" wherever a string is
    expected. *)
Definition requestUrl_of (this : XMLHttpRequestWithUrl) : string :=
  match x_uri this with
  | Some u => if startsWith_slash u then String.append location_origin u else u
  | None => "undefined"
  end.

(** The pre-send loop of [send], from rule number [i] on. *)
Fixpoint xhr_beforeSend (i : nat) (cfgs : list InjectConfig) (requestUrl : string)
    (this : XMLHttpRequestWithUrl) (body : JsVal)
  : M (XMLHttpRequestWithUrl * JsVal) :=
  match cfgs with
  | [] => ret (this, body)
  | config :: rest =>
      if rule_matches requestUrl (x_method this) config then
        match beforeSendCallback config with
        | Some hook =>
            u <- lift (new_URL requestUrl);;
            let requestInfo := mkRequestInfo u body in
            emit [BeforeSendCalled i requestInfo];;
            let result :=
              match hook requestInfo with
              | Some r => r
              | None => mkBeforeSendResult None JUndefined
              end in
            let body' := if truthy (bs_data result) then bs_data result else body in
            match bs_url result with
            | Some newUrl =>
                let this1 :=
                  mkXhr (Some (URL_toString newUrl)) (x_method this)
                    (x_requestHeaders this) (x_nativeHeaders this)
                    (x_responseType this) (x_onreadystatechange this) in
                let savedHeaders :=
                  match x_requestHeaders this1 with
                  | Some hs => hs
                  | None => []
                  end in
                this2 <- native_open this1 (x_method this1) (x_uri this1);;
                this3 <- reapply_headers savedHeaders this2;;
                ret (this3, body')
            | None => ret (this, body')
            end
        | None => ret (this, body)
        end (* break *)
      else xhr_beforeSend (S i) rest requestUrl this body
  end.

(** The completion loop of the wrapped [onreadystatechange], from rule
    number [i] on. *)
Fixpoint xhr_response (i : nat) (cfgs : list InjectConfig)
    (this : XMLHttpRequestWithUrl) (body : JsVal) (s : Snapshot)
    (originalOnreadystatechange : option Handler) (sh : Shadow) : M LoopExit :=
  match cfgs with
  | [] => ret (Completed sh)
  | config :: rest =>
      if negb (isTargetUrl (s_responseURL s) (url config))
         || negb (isMethodEqual (x_method this) (method config))
      then (* continue *)
        xhr_response (S i) rest this body s originalOnreadystatechange sh
      else
        u <- lift (genUrl (s_responseURL s));;
        let requestInfo := mkRequestInfo u body in
        let rest_of_iteration :=
          responseData <- lift (getResponseData (text_access sh) (view_of this s sh));;
          match callback config with
          | Some _ => emit [CallbackCalled i responseData]
          | None => ret tt
          end;;
          match lastCallback config with
          | Some hook =>
              emit [LastCalled i responseData requestInfo];;
              let modifiedResponse := hook responseData requestInfo in
              let sh' := mkShadow (set_body (proxy sh) modifiedResponse) true in
              xhr_response (S i) rest this body s originalOnreadystatechange sh'
          | None =>
              xhr_response (S i) rest this body s originalOnreadystatechange sh
          end in
        match preCallback config with
        | Some pre =>
            data <- lift (getResponseData (text_access sh) (view_of this s sh));;
            emit [PreCalled i data requestInfo];;
            let '(isValid, newBody) := pre data requestInfo in
            if negb isValid then
              newRequest <- hijackXHR_open new_XMLHttpRequest (x_method this)
                              (pr_uri newBody);;
              let newRequest' :=
                set_onreadystatechange newRequest
                  (Some (supersede_handler i config requestInfo (proxy sh)
                           originalOnreadystatechange)) in
              resend newRequest' (pr_data newBody);;
              ret Superseded
            else rest_of_iteration
        | None => rest_of_iteration
        end
  end.

(** The wrapped [onreadystatechange], run for the event [s]. *)
Definition xhr_onreadystatechange (this : XMLHttpRequestWithUrl) (body : JsVal)
    (originalOnreadystatechange : option Handler) (sh : Shadow) (s : Snapshot)
  : M Shadow :=
  let now := view_of this s sh in
  if (readyState now =? 4) && (status now =? 200) then
    exit <- xhr_response 0 configs this body s originalOnreadystatechange sh;;
    match exit with
    | Completed sh' =>
        call_handler originalOnreadystatechange (view_of this s sh');;
        ret sh'
    | Superseded => ret sh
    end
  else
    call_handler originalOnreadystatechange now;;
    ret sh.

(** The browser dispatching the events of one request to the wrapped
    handler.  The handler is an async function: what it throws rejects its
    own promise and the next event is dispatched all the same. *)
Fixpoint xhr_dispatch (on_event : Shadow -> Snapshot -> M Shadow) (sh : Shadow)
    (events : list Snapshot) : M unit :=
  match events with
  | [] => ret tt
  | s :: rest =>
      match on_event sh s with
      | (t, Ok sh') =>
          let '(t', r) := xhr_dispatch on_event sh' rest in (t ++ t', r)
      | (t, Throw e) =>
          let '(t', r) := xhr_dispatch on_event sh rest in
          (t ++ UnhandledRejection e :: t', r)
      | (t, OutOfFuel) => (t, OutOfFuel)
      end
  end.

Definition request_of (this : XMLHttpRequestWithUrl) (body : JsVal) : XhrRequest :=
  mkXhrRequest (x_method this) (x_uri this) (x_nativeHeaders this) body
    (x_responseType this).

(** The body of the patched [XMLHttpRequest.prototype.send]. *)
Definition send_body (this : XMLHttpRequestWithUrl) (body : JsVal) : M unit :=
  let originalOnreadystatechange := x_onreadystatechange this in
  let requestUrl := requestUrl_of this in
  opened <- xhr_beforeSend 0 configs requestUrl this body;;
  let '(this', body') := opened in
  let rq := request_of this' body' in
  emit [NativeSend rq];;
  xhr_dispatch
    (xhr_onreadystatechange this' body' originalOnreadystatechange)
    initial_shadow (xhr_network rq).

End LegacyAdapter.

(** The patched [send].  [fuel] bounds how many times a superseding request
    may itself be superseded. *)
Fixpoint hijackXHR_send `{H : Host} (fuel : nat) (configs : list InjectConfig)
    (this : XMLHttpRequestWithUrl) (body : JsVal) : M unit :=
  send_body configs
    (match fuel with
     | O => fun _ _ => out_of_fuel
     | S n => hijackXHR_send n configs
     end)
    this body.

(* ===================================================================== *)
(** * Modern transport adapter ([hijackFetch]) *)
(* ===================================================================== *)

(** [typeof input === 'string' ? input : input instanceof URL ? input.href : input.url] *)
Definition input_url (input : FetchInput) : string :=
  match input with
  | InputString s => s
  | InputURL u => href u
  | InputRequest request_url => request_url
  end.

(** [init && init.method ? init.method : 'GET'] *)
Definition fetch_method (init : option RequestInit) : string :=
  match init with
  | Some i =>
      match init_method i with
      | Some m => if truthy (JStr m) then m else "GET"
      | None => "GET"
      end
  | None => "GET"
  end.

(** [init?.body] *)
Definition init_body_of (init : option RequestInit) : JsVal :=
  match init with
  | Some i => init_body i
  | None => JUndefined
  end.

(** [{ ...init, body: data }] *)
Definition with_body (init : option RequestInit) (data : JsVal) : RequestInit :=
  match init with
  | Some i => mkInit (init_method i) data (init_rest i)
  | None => mkInit None data []
  end.

Definition null_body_status (st : Z) : bool :=
  (st =? 101) || (st =? 103) || (st =? 204) || (st =? 205) || (st =? 304).

(** Header names compare without case. *)
Definition same_name (name : string) (h : Header) : bool :=
  String.eqb (toLowerCase (h_name h)) (toLowerCase name).

(** [headers.has(name)] *)
Definition Headers_has (name : string) (headers : list Header) : bool :=
  existsb (same_name name) headers.

(** [headers.get(name)]: the values under the name, joined. *)
Definition Headers_get (name : string) (headers : list Header) : option string :=
  match List.filter (same_name name) headers with
  | [] => None
  | found => Some (join ", " (map h_value found))
  end.

(** The lower-cased names of a header list, each once, in ascending
    order. *)
Fixpoint insert_name (name : string) (names : list string) : list string :=
  match names with
  | [] => [name]
  | n :: rest =>
      if String.eqb name n then names
      else if String.ltb name n then name :: names
      else n :: insert_name name rest
  end.

Definition sorted_names (headers : list Header) : list string :=
  fold_right insert_name [] (map (fun h => toLowerCase (h_name h)) headers).

(** The entries of a [Headers] object holding the header list [headers],
    as script reads them. *)
Definition Headers_entries (headers : list Header) : list Header :=
  map (fun name =>
         mkHeader name match Headers_get name headers with
                       | Some value => value
                       | None => ""
                       end)
      (sorted_names headers).

(** The [Content-Type] a string body brings. *)
Definition text_plain : Header := mkHeader "content-type" "text/plain;charset=UTF-8".

(** [new Response(body, { status, statusText, headers })] where [body] is a
    string or [undefined] and [headers] a [Headers] object: the constructor
    rejects a status outside 200..599; it fills the header list from the
    entries of [headers]; it rejects a body together with a null-body
    status; with a body, it appends the body's [Content-Type] unless the
    list has one.  The response it builds has an empty [url]. *)
Definition new_Response (body : JsVal) (st : Z) (stText : string)
    (headers : list Header) : Res Response :=
  if (st <? 200) || (599 <? st) then Throw (RangeError_status st)
  else
    match body with
    | JStr text =>
        if null_body_status st then Throw (TypeError_nullBodyStatus st)
        else
          let filled := Headers_entries headers in
          let with_type :=
            if Headers_has "content-type" filled then filled
            else filled ++ [text_plain] in
          Ok (mkResponse "" st stText (Headers_entries with_type) text)
    | _ => Ok (mkResponse "" st stText (Headers_entries headers) "")
    end.

Section ModernAdapter.
Context `{H : Host}.
Variable configs : list InjectConfig.

(** The [try { JSON.parse(content) } catch { content }] of the response
    loop. *)
Definition parsed_or_raw (content : string) : JsVal :=
  match JSON_parse content with
  | Some v => v
  | None => JStr content
  end.

(** The pre-send loop of the patched [fetch], from rule number [i] on. *)
Fixpoint fetch_beforeSend (i : nat) (cfgs : list InjectConfig) (u m : string)
    (input : FetchInput) (init : option RequestInit)
  : M (FetchInput * option RequestInit) :=
  match cfgs with
  | [] => ret (input, init)
  | config :: rest =>
      if rule_matches u (Some m) config then
        match beforeSendCallback config with
        | Some hook =>
            parsed <- lift (genUrl u);;
            let requestInfo := mkRequestInfo parsed (init_body_of init) in
            emit [BeforeSendCalled i requestInfo];;
            match hook requestInfo with
            | Some result =>
                let modifiedInput :=
                  match bs_url result with
                  | Some newUrl => InputString (URL_toString newUrl)
                  | None => input
                  end in
                let modifiedInit :=
                  if truthy (bs_data result)
                  then Some (with_body init (bs_data result))
                  else init in
                ret (modifiedInput, modifiedInit)
            | None => ret (input, init)
            end
        | None => ret (input, init)
        end (* break *)
      else fetch_beforeSend (S i) rest u m input init
  end.

(** The response loop of the patched [fetch], from rule number [i] on. *)
Fixpoint fetch_response (i : nat) (cfgs : list InjectConfig) (m : string)
    (init : option RequestInit) (response : Response) : M Response :=
  match cfgs with
  | [] => ret response
  | config :: rest =>
      if rule_matches (rs_url response) (Some m) config then
        let content := rs_body response in
        let responseData := parsed_or_raw content in
        parsed <- lift (genUrl (rs_url response));;
        let requestInfo := mkRequestInfo parsed (init_body_of init) in
        match callback config with
        | Some _ => emit [CallbackCalled i responseData]
        | None => ret tt
        end;;
        match lastCallback config with
        | Some hook =>
            emit [LastCalled i responseData requestInfo];;
            let modifiedData := hook responseData requestInfo in
            let modifiedContent :=
              if is_string modifiedData then modifiedData
              else JSON_stringify modifiedData in
            lift (new_Response modifiedContent (rs_status response)
                    (rs_statusText response) (rs_headers response))
        | None => fetch_response (S i) rest m init response
        end
      else fetch_response (S i) rest m init response
  end.

(** The patched [fetch]. *)
Definition hijackFetch (input : FetchInput) (init : option RequestInit) : M Response :=
  let u := input_url input in
  let m := fetch_method init in
  modified <- fetch_beforeSend 0 configs u m input init;;
  let '(modifiedInput, modifiedInit) := modified in
  emit [NativeFetch modifiedInput modifiedInit];;
  response <- lift (match fetch_network modifiedInput modifiedInit with
                    | Some r => Ok r
                    | None => Throw NetworkError
                    end);;
  fetch_response 0 configs m init response.

End ModernAdapter.

(* ===================================================================== *)
(** * A page issuing calls *)
(* ===================================================================== *)

(** [x = new XMLHttpRequest(); x.open(m, uri); x.onreadystatechange = h;
    x.send(body)] on the patched prototype. *)
Definition xhr_call `{H : Host} (fuel : nat) (configs : list InjectConfig)
    (m uri : option string) (h : option Handler) (body : JsVal) : M unit :=
  x <- hijackXHR_open new_XMLHttpRequest m uri;;
  hijackXHR_send fuel configs (set_onreadystatechange x h) body.

(** Reading a trace. *)
Definition handler_view (e : Event) : option XMLHttpRequestProxy :=
  match e with
  | HandlerCalled v => Some v
  | _ => None
  end.

(** The views the page's handler was called with, in order. *)
Definition handler_views (t : list Event) : list XMLHttpRequestProxy :=
  omap handler_view t.

Definition is_completion (v : XMLHttpRequestProxy) : bool := readyState v =? 4.

(** The completions (ready state 4) the page's handler observed. *)
Definition completions (t : list Event) : list XMLHttpRequestProxy :=
  List.filter is_completion (handler_views t).


(** Replace every call of the page's handler by a call of [h]. *)
Definition redirect (h : Handler) (t : list Event) : list Event :=
  flat_map (fun e => match e with HandlerCalled v => h v | _ => [e] end) t.

Definition redirectM {A} (h : Handler) (c : M A) : M A := (redirect h (fst c), snd c).

(** Number of registry entries with the key of [c]. *)
Definition key_count (c : InjectConfig) (cfgs : list InjectConfig) : nat :=
  length (List.filter (same_key c) cfgs).

(* ===================================================================== *)
(** * A concrete host, for the examples *)
(* ===================================================================== *)

Module ExampleHost.

(** Split [s] before the first character satisfying [p]. *)
Fixpoint break (p : ascii -> bool) (s : string) : string * string :=
  match s with
  | EmptyString => (EmptyString, EmptyString)
  | String c rest =>
      if p c then (EmptyString, s)
      else let '(a, b) := break p rest in (String c a, b)
  end.

Definition is_alpha (c : ascii) : bool :=
  let n := nat_of_ascii (lower_ascii c) in Nat.leb 97 n && Nat.leb n 122.

Definition is_scheme_char (c : ascii) : bool :=
  let n := nat_of_ascii c in
  is_alpha c || (Nat.leb 48 n && Nat.leb n 57)
  || Ascii.eqb c "+" || Ascii.eqb c "-" || Ascii.eqb c ".".

Fixpoint all_chars (p : ascii -> bool) (s : string) : bool :=
  match s with
  | EmptyString => true
  | String c rest => p c && all_chars p rest
  end.

Definition valid_scheme (s : string) : bool :=
  match s with
  | EmptyString => false
  | String c _ => is_alpha c && all_chars is_scheme_char s
  end.

Definition drop_string (n : nat) (s : string) : string :=
  String.substring n (String.length s - n) s.

(** [new URL(s)] on texts of the shape [scheme://host/path?query#fragment]
    with an http or https scheme, a host without user, password or port,
    and a path in normal form; there the result is the URL Standard's.
    Any text without such a prefix is rejected, which is also the
    standard's answer for a text without a scheme. *)
Definition parse (s : string) : option URL :=
  let '(scheme, rest) := break (Ascii.eqb ":") s in
  if valid_scheme scheme && String.prefix "://" rest then
    let after := drop_string 3 rest in
    let '(authority, tail) :=
      break (fun c => Ascii.eqb c "/" || Ascii.eqb c "?" || Ascii.eqb c "#") after in
    if String.eqb authority "" then None
    else
      let '(path, tail2) := break (fun c => Ascii.eqb c "?" || Ascii.eqb c "#") tail in
      let '(query, fragment) := break (Ascii.eqb "#") tail2 in
      let proto := String.append (toLowerCase scheme) ":" in
      let hostname := toLowerCase authority in
      let path' := if String.eqb path "" then "/" else path in
      let search' := if String.eqb query "?" then "" else query in
      let hash' := if String.eqb fragment "#" then "" else fragment in
      Some (mkURL
              (String.append proto
                 (String.append "//"
                    (String.append hostname
                       (String.append path' (String.append query fragment)))))
              proto hostname path' search' hash')
  else None.

(** [JSON.parse] on the response bodies of the examples: the three
    literals and one number parse; the other bodies used below are not JSON
    texts and make [JSON.parse] throw. *)
Definition parse_json (s : string) : option JsVal :=
  if String.eqb s "null" then Some JNull
  else if String.eqb s "true" then Some (JBool true)
  else if String.eqb s "false" then Some (JBool false)
  else if String.eqb s "1" then Some (JNum 1)
  else None.

(** A page served from [https://example.com], over the given networks. *)
Definition host (xhr : XhrRequest -> list Snapshot)
    (fetch : FetchInput -> option RequestInit -> option Response) : Host :=
  mkHost "https://example.com" parse parse_json xhr fetch.

Definition no_fetch : FetchInput -> option RequestInit -> option Response :=
  fun _ _ => None.

Definition no_xhr : XhrRequest -> list Snapshot := fun _ => [].

Definition plain : Host := host no_xhr no_fetch.

End ExampleHost.

(** The captured headers [send] applies again after a URL override: all
    but [content-length], in the order of the map. *)
Definition kept_headers (savedHeaders : list (string * Header)) : list Header :=
  List.filter (fun h => negb (String.eqb (toLowerCase (h_name h)) "content-length"))
    (map snd savedHeaders).




(** The hook invocations of one turn of the legacy completion loop on a
    matching rule whose [preCallback], if any, accepts; and the shadow the
    turn leaves. *)
Definition xhr_rule_events (i : nat) (c : InjectConfig) (data : JsVal)
    (info : IRequestInfo) : list Event :=
  match preCallback c with Some _ => [PreCalled i data info] | None => [] end
  ++ match callback c with Some _ => [CallbackCalled i data] | None => [] end
  ++ match lastCallback c with Some _ => [LastCalled i data info] | None => [] end.

Definition xhr_rule_shadow (c : InjectConfig) (data : JsVal) (info : IRequestInfo)
    (sh : Shadow) : Shadow :=
  match lastCallback c with
  | Some hook => mkShadow (set_body (proxy sh) (hook data info)) true
  | None => sh
  end.

(** The hook invocations of one turn of the modern response loop on a
    matching rule. *)
Definition fetch_rule_events (i : nat) (c : InjectConfig) (data : JsVal)
    (info : IRequestInfo) : list Event :=
  match callback c with Some _ => [CallbackCalled i data] | None => [] end
  ++ match lastCallback c with Some _ => [LastCalled i data info] | None => [] end.



(** Apply [f] to the value a computation ends with. *)
Definition mapM {A B} (f : A -> B) (c : M A) : M B :=
  (fst c,
   match snd c with
   | Ok a => Ok (f a)
   | Throw e => Throw e
   | OutOfFuel => OutOfFuel
   end).

(** A trace in which the page's handler is not called. *)
Definition handler_free (t : list Event) : Prop :=
  Forall (fun e => handler_view e = None) t.

(** [resend] treats the handler of the object it is given as a handler:
    running it with [g] is running it with the page's observer and handing
    every observation to [g]. *)
Definition natural (resend : XMLHttpRequestWithUrl -> JsVal -> M unit) : Prop :=
  forall x g body,
    resend (set_onreadystatechange x (Some g)) body
    = redirectM g (resend (set_onreadystatechange x (Some page_handler)) body).


(** The object the completion loop creates and opens for a superseding
    request. *)
Definition superseding_request (m uri : option string) : XMLHttpRequestWithUrl :=
  mkXhr uri m (Some []) [] "" None.

(** The fields of the object as the browser holds them at the event [s]. *)
Definition native_view (this : XMLHttpRequestWithUrl) (s : Snapshot)
  : XMLHttpRequestProxy :=
  mkProxy (s_status s) (s_response s) (s_statusText s) (x_responseType this)
    (s_responseText s) (s_responseXML s) (s_readyState s).

(** The requests handed to the browser's [send], in order. *)
Definition sent_request (e : Event) : option XhrRequest :=
  match e with
  | NativeSend rq => Some rq
  | _ => None
  end.

Definition sent_requests (t : list Event) : list XhrRequest := omap sent_request t.

(** The pre-send hook invocations of a trace, by rule. *)
Definition beforeSend_rule (e : Event) : option nat :=
  match e with
  | BeforeSendCalled i _ => Some i
  | _ => None
  end.

Definition beforeSend_rules (t : list Event) : list nat := omap beforeSend_rule t.

(** What a page does with the class: it constructs, and it calls [restore]
    on a reference an earlier construction gave it (the [k]-th one). *)
Inductive PageAction : Type :=
| New (options : Options)
| Restore (k : nat).

(** The references the page holds so far, and the realm. *)
Definition perform (st : list nat * Realm) (a : PageAction) : list nat * Realm :=
  let '(held, g) := st in
  match a with
  | New options =>
      let '(r, g') := construct options g in (held ++ [r], g')
  | Restore k =>
      match held !! k with
      | Some i => (held, restore i g)
      | None => (held, g)
      end
  end.

Definition run_page (st : list nat * Realm) (actions : list PageAction)
  : list nat * Realm :=
  fold_left perform actions st.

(** The captured header map as [setRequestHeader] builds it: every entry
    sits under the lower-cased name of its header, and no key occurs
    twice. *)
Definition captured_wf (hs : list (string * Header)) : Prop :=
  Forall (fun e => fst e = toLowerCase (h_name (snd e))) hs /\ NoDup (map fst hs).

(** The events a call of the patched [fetch] can produce. *)
Definition fetch_event (e : Event) : bool :=
  match e with
  | BeforeSendCalled _ _ | NativeFetch _ _ | CallbackCalled _ _ | LastCalled _ _ _ => true
  | _ => false
  end.


(** The page calling [setRequestHeader] for each header of a list in
    turn. *)
Fixpoint set_headers (headers : list Header) (this : XMLHttpRequestWithUrl)
  : M XMLHttpRequestWithUrl :=
  match headers with
  | [] => ret this
  | h :: rest =>
      this' <- setRequestHeader this (h_name h) (h_value h);;
      set_headers rest this'
  end.

(** The registry of the instance [i]. *)
Definition registry (g : Realm) (i : nat) : option (list InjectConfig) :=
  interceptConfigs <$> (objects g !! i).

(** The three transport entry points of a realm. *)
Definition entry_points (g : Realm) : option Fn * option Fn * option Fn :=
  (XMLHttpRequest_open g, XMLHttpRequest_send g, window_fetch g).

(** The realm of a page on which one session was started from the
    browser's own entry points: the flag is set, [INSTANCE] is the first
    object allocated, that object holds the browser's functions as its
    originals, nothing was logged, and the entry points are either the
    wrappers of that session or the browser's functions again. *)
Definition natives : option Fn * option Fn * option Fn :=
  (Some NativeFn, Some NativeFn, Some NativeFn).

Definition wrappers (self : nat) : option Fn * option Fn * option Fn :=
  (Some (HijackedBy self), Some (HijackedBy self), Some (HijackedBy self)).

Definition one_session (g : Realm) : Prop :=
  isHijacked g = true /\ INSTANCE g = Some 0%nat /\ console g = [] /\
  (exists cfgs,
     objects g !! 0%nat
     = Some (mkInterceptor cfgs (Some NativeFn) (Some NativeFn) (Some NativeFn))) /\
  (entry_points g = wrappers 0 \/ entry_points g = natives).

Module Scenario.
Import ExampleHost.

(** A rule with no hook. *)
Definition bare (target : UrlTarget) (m : string) : InjectConfig :=
  mkConfig target m None None None None.

Definition data_url : string := "https://example.com/api/data".

Definition data_rule : InjectConfig := bare (TString data_url) "GET".
Definition other_rule : InjectConfig := bare (TString "https://example.com/api/other") "POST".

(** The first construction of the page, and a second one while the first
    session is active. *)
Definition first_session : nat * Realm := construct (Single data_rule) pristine.
Definition second_construction : nat * Realm :=
  construct (Single other_rule) (snd first_session).

(** An inconsistent realm: the flag is set and [INSTANCE] is empty; and a
    construction in it. *)
Definition flag_without_instance : Realm :=
  mkRealm (Some NativeFn) (Some NativeFn) (Some NativeFn) true None [] [].

Definition orphan_construction : nat * Realm :=
  construct (Single data_rule) flag_without_instance.

(** A first construction given the same rule twice. *)
Definition doubled_session : nat * Realm :=
  construct (Batch [data_rule; data_rule]) pristine.

(** The event of a text response in the given ready state, with the given
    status, text received so far and response URL. *)
Definition snapshot (rs st : Z) (text u : string) : Snapshot :=
  mkSnapshot rs st "" (JStr text) (JStr text) JNull u.

(** A server that answers every request on [data_url] with 201. *)
Definition created_network : XhrRequest -> list Snapshot :=
  fun _ => [snapshot 2 201 "" data_url; snapshot 4 201 "made" data_url].

Definition created_host : Host := host created_network no_fetch.

(** A rule on [data_url] with the three response hooks. *)
Definition hooked_rule : InjectConfig :=
  mkConfig (TString data_url) "GET"
    (Some (fun _ => tt))
    (Some (fun _ _ => (true, mkPreReplacement None JUndefined)))
    (Some (fun d _ => d))
    None.

(** The page's object after [open('GET', data_url)] and the assignment of
    its handler. *)
Definition opened (u : string) : XMLHttpRequestWithUrl :=
  mkXhr (Some u) (Some "GET") (Some []) [] "" (Some page_handler).

(** A rule on [data_url] whose pre-send hook moves the request to
    [/api/v2]. *)
Definition v2_url : URL :=
  mkURL "https://example.com/api/v2" "https:" "example.com" "/api/v2" "" "".

Definition moving_rule : InjectConfig :=
  mkConfig (TString data_url) "post" None None None
    (Some (fun _ => Some (mkBeforeSendResult (Some v2_url) JUndefined))).

(** The page's object after [open('POST', data_url)] and three
    [setRequestHeader] calls. *)
Definition with_headers : XMLHttpRequestWithUrl :=
  mkXhr (Some data_url) (Some "POST")
    (Some [("x-token", mkHeader "X-Token" "abc");
           ("content-length", mkHeader "Content-Length" "12");
           ("accept", mkHeader "Accept" "text/plain")])
    [mkHeader "X-Token" "abc"; mkHeader "Content-Length" "12";
     mkHeader "Accept" "text/plain"]
    "" (Some page_handler).

(** A server that answers every request with 200 and the text [hello],
    on both transports. *)
Definition hello_network : XhrRequest -> list Snapshot :=
  fun _ => [snapshot 2 200 "" data_url; snapshot 4 200 "hello" data_url].

Definition hello_fetch : FetchInput -> option RequestInit -> option Response :=
  fun _ _ => Some (mkResponse data_url 200 "" [] "hello").

Definition hello_host : Host := host hello_network hello_fetch.

(** A rule on [data_url] whose post-response hook returns the string [ok]. *)
Definition ok_rule : InjectConfig :=
  mkConfig (TString data_url) "GET" None None (Some (fun _ _ => JStr "ok")) None.

(** The same call on the two transports. *)
Definition ok_over_xhr : M unit :=
  xhr_call (H := hello_host) 0 [ok_rule] (Some "GET") (Some data_url)
    (Some page_handler) JNull.

Definition ok_over_fetch : M Response :=
  hijackFetch (H := hello_host) [ok_rule] (InputString data_url) None.

(** Two rules that both match [data_url]: a string target and a pattern. *)
Definition watch_data : InjectConfig :=
  mkConfig (TString data_url) "GET" (Some (fun _ => tt)) None None None.




(** The completion of the [hello] answer, and the same answer on fetch. *)
Definition hello_completion : Snapshot := snapshot 4 200 "hello" data_url.

Definition hello_response : Response := mkResponse data_url 200 "" [] "hello".

Definition data_URL : URL :=
  mkURL data_url "https:" "example.com" "/api/data" "" "".








(** A request on a relative URL without a leading slash, and a pattern
    rule with a pre-send hook that matches it. *)
Definition relative_url : string := "api/data".

Definition pattern_presend_rule : InjectConfig :=
  mkConfig (TRegExp 3 (String.prefix "api/")) "GET" None None None
    (Some (fun _ => None)).

(** A rule on [data_url] whose pre-send hook moves the request to
    [/api/v2] and replaces the body. *)
Definition rewriting_rule : InjectConfig :=
  mkConfig (TString data_url) "GET" None None None
    (Some (fun _ => Some (mkBeforeSendResult (Some v2_url) (JStr "patched")))).

(** A response without content. *)
Definition no_content_response : Response :=
  mkResponse data_url 204 "No Content" [] "".

(** A rule on [data_url] whose [lastCallback] wraps what it is given in an
    array. *)
Definition wrap_rule : InjectConfig :=
  mkConfig (TString data_url) "GET" None None (Some (fun d _ => JArr [d])) None.


Definition same_network : XhrRequest -> list Snapshot :=
  fun _ => [hello_completion].

Definition same_host : Host := host same_network no_fetch.





End Scenario.

(* ===================================================================== *)
(** * Theorems *)
(* ===================================================================== *)

(** ** Matcher *)

Section MatcherFacts.
Context `{H : Host}.

Lemma new_URL_None (s : string) :
  parse_URL s = None -> new_URL s = Throw (TypeError_InvalidURL s).
Proof. unfold new_URL. intros ->. reflexivity. Qed.

Lemma isTargetUrl_try_total (u t : string) :
  isTargetUrl_try u t <> OutOfFuel.
Proof.
  unfold isTargetUrl_try, and_then, new_URL.
  destruct (parse_URL u); [destruct (parse_URL t)|]; discriminate.
Qed.

(** A string target matches exactly when both texts parse and agree on
    host, protocol and path. *)
Lemma isTargetUrl_string_true (u t : string) :
  isTargetUrl u (TString t) = true <->
  exists a b, parse_URL u = Some a /\ parse_URL t = Some b /\
              host a = host b /\ protocol a = protocol b /\ pathname a = pathname b.
Proof.
  unfold isTargetUrl, isTargetUrl_try, and_then, new_URL. split.
  - destruct (parse_URL u) as [a|]; [|discriminate].
    destruct (parse_URL t) as [b|]; [|discriminate].
    intros E. apply andb_prop in E as [E E3]. apply andb_prop in E as [E1 E2].
    exists a, b. rewrite String.eqb_eq in E1, E2, E3. auto.
  - intros (a & b & -> & -> & E1 & E2 & E3).
    rewrite E1, E2, E3, !String.eqb_refl. reflexivity.
Qed.

(** C7. Whenever [new URL] fails on the candidate URL or on the rule's
    string target, [isTargetUrl] answers [false]: the exception is caught
    inside the matcher, whose whole result is this boolean, and so is the
    answer of the rule test built on it, whatever the method.  The answer
    is a function of the two texts (and of the host's parser) alone. *)
Theorem C7_unparsable_url_fails_closed (u t : string) :
  parse_URL u = None \/ parse_URL t = None ->
  (exists e, isTargetUrl_try u t = Throw e) /\
  isTargetUrl u (TString t) = false /\
  forall m config, url config = TString t -> rule_matches u m config = false.
Proof.
  intros Hfail.
  assert (Htry : exists e, isTargetUrl_try u t = Throw e).
  { unfold isTargetUrl_try, and_then, new_URL.
    destruct Hfail as [-> | ->]; [eauto|].
    destruct (parse_URL u); eauto. }
  assert (Hfalse : isTargetUrl u (TString t) = false).
  { destruct Htry as [e He]. unfold isTargetUrl. rewrite He. reflexivity. }
  repeat split; [exact Htry | exact Hfalse |].
  intros m config Hurl. unfold rule_matches. rewrite Hurl, Hfalse. reflexivity.
Qed.

End MatcherFacts.

Lemma C7_witness :
  (parse_URL (Host := ExampleHost.plain) "/api/x" = None \/
   parse_URL (Host := ExampleHost.plain) "https://example.com/api/x" = None) /\
  isTargetUrl (H := ExampleHost.plain) "/api/x" (TString "https://example.com/api/x") = false.
Proof.
  split; [left; reflexivity|].
  apply (C7_unparsable_url_fails_closed (H := ExampleHost.plain)
           "/api/x" "https://example.com/api/x").
  left. reflexivity.
Defined.

(** C5. A rule whose string target is the relative path [/api/x] does not
    match the absolute candidate [https://example.com/api/x] on a page
    served from [https://example.com]: [new URL("/api/x")] throws and the
    matcher answers [false].  In the other direction the absolute target
    does not match the relative candidate as [fetch] passes it to the
    matcher; it matches once [send] has completed the candidate with the
    page origin. *)
Theorem C5_relative_target_never_matches :
  isTargetUrl (H := ExampleHost.plain) "https://example.com/api/x" (TString "/api/x") = false /\
  isTargetUrl (H := ExampleHost.plain) (input_url (InputString "/api/x"))
    (TString "https://example.com/api/x") = false /\
  isTargetUrl (H := ExampleHost.plain)
    (requestUrl_of (H := ExampleHost.plain)
       (mkXhr (Some "/api/x") (Some "GET") (Some []) [] "" None))
    (TString "https://example.com/api/x") = true.
Proof. repeat split; reflexivity. Qed.

(** ** Rule registry *)

Lemma target_eqb_refl (a : UrlTarget) : target_eqb a a = true.
Proof. destruct a; simpl; [apply String.eqb_refl | apply Nat.eqb_refl]. Qed.

Lemma target_eqb_sym (a b : UrlTarget) : target_eqb a b = target_eqb b a.
Proof. destruct a, b; simpl; [apply String.eqb_sym | | | apply Nat.eqb_sym]; reflexivity. Qed.

Lemma target_eqb_trans (a b c : UrlTarget) :
  target_eqb a b = true -> target_eqb b c = true -> target_eqb a c = true.
Proof.
  destruct a, b, c; simpl; try discriminate.
  - rewrite !String.eqb_eq. congruence.
  - rewrite !Nat.eqb_eq. congruence.
Qed.

Lemma same_key_refl (c : InjectConfig) : same_key c c = true.
Proof. unfold same_key. rewrite target_eqb_refl, String.eqb_refl. reflexivity. Qed.

Lemma same_key_sym (a b : InjectConfig) : same_key a b = same_key b a.
Proof. unfold same_key. rewrite target_eqb_sym, String.eqb_sym. reflexivity. Qed.

Lemma same_key_trans (a b c : InjectConfig) :
  same_key a b = true -> same_key b c = true -> same_key a c = true.
Proof.
  unfold same_key. intros Hab Hbc.
  apply andb_prop in Hab as [U1 M1]. apply andb_prop in Hbc as [U2 M2].
  rewrite (target_eqb_trans _ _ _ U1 U2).
  rewrite String.eqb_eq in M1, M2. rewrite M1, M2, String.eqb_refl. reflexivity.
Qed.

Lemma key_count_app (c : InjectConfig) (l1 l2 : list InjectConfig) :
  key_count c (l1 ++ l2) = (key_count c l1 + key_count c l2)%nat.
Proof. unfold key_count. rewrite List.filter_app, length_app. reflexivity. Qed.

Lemma key_count_zero (c : InjectConfig) (l : list InjectConfig) :
  existsb (fun cf => same_key cf c) l = false -> key_count c l = 0%nat.
Proof.
  unfold key_count. induction l as [|x l IH]; simpl; [reflexivity|].
  intros E. apply orb_false_elim in E as [Ex El].
  rewrite same_key_sym, Ex. auto.
Qed.

Lemma key_count_pos (c : InjectConfig) (l : list InjectConfig) :
  existsb (fun cf => same_key cf c) l = true -> (1 <= key_count c l)%nat.
Proof.
  unfold key_count. induction l as [|x l IH]; simpl; [discriminate|].
  rewrite (same_key_sym c x). destruct (same_key x c); simpl; [lia | auto].
Qed.

Lemma existsb_same_key (a b : InjectConfig) (l : list InjectConfig) :
  same_key a b = true ->
  existsb (fun cf => same_key cf a) l = existsb (fun cf => same_key cf b) l.
Proof.
  intros Hab. induction l as [|x l IH]; simpl; [reflexivity|].
  rewrite IH. f_equal.
  destruct (same_key x b) eqn:Exb.
  - apply (same_key_trans x b a); [exact Exb | rewrite same_key_sym; exact Hab].
  - destruct (same_key x a) eqn:Exa; [|reflexivity].
    rewrite (same_key_trans x a b Exa Hab) in Exb. discriminate.
Qed.

(** One step of [addConfig] appends the rule or leaves the registry as it is. *)
Lemma addOne_shape (cfgs : list InjectConfig) (newCf : InjectConfig) :
  (existsb (fun cf => same_key cf newCf) cfgs = true /\ addOne cfgs newCf = cfgs) \/
  (existsb (fun cf => same_key cf newCf) cfgs = false /\ addOne cfgs newCf = cfgs ++ [newCf]).
Proof.
  unfold addOne. destruct (existsb _ cfgs); simpl; [left | right]; auto.
Qed.

Lemma addOne_count_mono (c newCf : InjectConfig) (cfgs : list InjectConfig) :
  (key_count c cfgs <= key_count c (addOne cfgs newCf))%nat.
Proof.
  destruct (addOne_shape cfgs newCf) as [[_ ->] | [_ ->]]; [lia|].
  rewrite key_count_app. lia.
Qed.

Lemma addOne_count_le1 (c newCf : InjectConfig) (cfgs : list InjectConfig) :
  (key_count c cfgs <= 1)%nat -> (key_count c (addOne cfgs newCf) <= 1)%nat.
Proof.
  intros Hle.
  destruct (addOne_shape cfgs newCf) as [[_ ->] | [Hnone ->]]; [exact Hle|].
  rewrite key_count_app. unfold key_count at 2. simpl.
  destruct (same_key c newCf) eqn:E; simpl; [|lia].
  rewrite <- (existsb_same_key c newCf cfgs E) in Hnone.
  rewrite (key_count_zero _ _ Hnone). lia.
Qed.

Lemma addOne_count_self (newCf : InjectConfig) (cfgs : list InjectConfig) :
  (key_count newCf cfgs <= 1)%nat -> key_count newCf (addOne cfgs newCf) = 1%nat.
Proof.
  intros Hle.
  destruct (addOne_shape cfgs newCf) as [[Hsome ->] | [Hnone ->]].
  - pose proof (key_count_pos _ _ Hsome). lia.
  - rewrite key_count_app, (key_count_zero _ _ Hnone).
    unfold key_count. simpl. rewrite same_key_refl. reflexivity.
Qed.

Lemma fold_addOne_count_mono (c : InjectConfig) (batch cfgs : list InjectConfig) :
  (key_count c cfgs <= key_count c (fold_left addOne batch cfgs))%nat.
Proof.
  revert cfgs. induction batch as [|x batch IH]; intros cfgs; simpl; [lia|].
  pose proof (addOne_count_mono c x cfgs). pose proof (IH (addOne cfgs x)). lia.
Qed.

Lemma fold_addOne_count_le1 (c : InjectConfig) (batch cfgs : list InjectConfig) :
  (key_count c cfgs <= 1)%nat -> (key_count c (fold_left addOne batch cfgs) <= 1)%nat.
Proof.
  revert cfgs. induction batch as [|x batch IH]; intros cfgs Hle; simpl; [exact Hle|].
  apply IH, addOne_count_le1, Hle.
Qed.

Lemma fold_addOne_count_member (c : InjectConfig) (batch cfgs : list InjectConfig) :
  In c batch -> (key_count c cfgs <= 1)%nat ->
  key_count c (fold_left addOne batch cfgs) = 1%nat.
Proof.
  revert cfgs. induction batch as [|x batch IH]; intros cfgs Hin Hle; simpl; [destruct Hin|].
  destruct Hin as [-> | Hin].
  - pose proof (addOne_count_self c cfgs Hle) as Hone.
    pose proof (fold_addOne_count_mono c batch (addOne cfgs c)).
    pose proof (fold_addOne_count_le1 c batch (addOne cfgs c)). lia.
  - apply IH; [exact Hin | apply addOne_count_le1, Hle].
Qed.

(** [addConfig] keeps the registry as a prefix and appends a subsequence
    of the batch. *)
Lemma fold_addOne_appends (batch cfgs : list InjectConfig) :
  exists added, fold_left addOne batch cfgs = cfgs ++ added /\ sublist added batch.
Proof.
  revert cfgs. induction batch as [|x batch IH]; intros cfgs; simpl.
  - exists []. rewrite app_nil_r. split; [reflexivity | constructor].
  - destruct (IH (addOne cfgs x)) as (added & -> & Hsub).
    destruct (addOne_shape cfgs x) as [[_ ->] | [_ ->]].
    + exists added. split; [reflexivity | by apply sublist_cons].
    + exists (x :: added). rewrite <- app_assoc. split; [reflexivity | by apply sublist_skip].
Qed.

Lemma key_count_same_key (a b : InjectConfig) (l : list InjectConfig) :
  same_key a b = true -> key_count a l = key_count b l.
Proof.
  intros Hab. unfold key_count. f_equal. apply List.filter_ext. intros x.
  destruct (same_key b x) eqn:E.
  - apply (same_key_trans a b x Hab E).
  - destruct (same_key a x) eqn:E2; [|reflexivity].
    rewrite same_key_sym in Hab. rewrite (same_key_trans b a x Hab E2) in E.
    discriminate.
Qed.

(** C3 (amended). Registering through [addConfig]: when the registry holds
    at most one entry for the (url, method) pair of a rule of the batch, it
    holds exactly one afterwards, whether the rules carrying that pair come
    in one batch or in two calls; the entries already registered stay in
    place and the new ones follow in the order of the batch.  A
    construction while a session is active registers through [addConfig];
    the first construction stores its batch as given. *)
Theorem C3_addConfig_one_entry_per_key
    (cfgs : list InjectConfig) (options : Options) (R1 R2 : InjectConfig)
    (g : Realm) :
  In R1 (toArray options) -> In R2 (toArray options) ->
  same_key R1 R2 = true ->
  (key_count R1 cfgs <= 1)%nat ->
  key_count R1 (addConfig cfgs options) = 1%nat /\
  key_count R2 (addConfig cfgs options) = 1%nat /\
  key_count R1 (addConfig (addConfig cfgs (Single R1)) (Single R2)) = 1%nat /\
  (exists added, addConfig cfgs options = cfgs ++ added /\
                 sublist added (toArray options)) /\
  (isHijacked g = false ->
   registry (snd (construct options g)) (fst (construct options g))
   = Some (toArray options)) /\
  (forall i, isHijacked g = true -> INSTANCE g = Some i ->
             registry g i = Some cfgs ->
             registry (snd (construct options g)) i = Some (addConfig cfgs options)).
Proof.
  intros H1 H2 Hkey Hle.
  assert (Hle2 : (key_count R2 cfgs <= 1)%nat).
  { rewrite <- (key_count_same_key R1 R2 cfgs Hkey). exact Hle. }
  unfold addConfig.
  split; [apply fold_addOne_count_member; assumption|].
  split; [apply fold_addOne_count_member; assumption|].
  split.
  { rewrite (key_count_same_key R1 R2 _ Hkey).
    apply fold_addOne_count_member; [left; reflexivity|].
    rewrite <- (key_count_same_key R1 R2 _ Hkey).
    cbn [toArray fold_left]. rewrite (addOne_count_self R1 cfgs Hle). lia. }
  split; [apply fold_addOne_appends|].
  split.
  - intros Hoff. unfold construct, registry. rewrite Hoff. simpl.
    rewrite lookup_app_r by lia. rewrite Nat.sub_diag. reflexivity.
  - intros i Hon Hinst Hreg. unfold construct, registry in *. rewrite Hon, Hinst. simpl.
    unfold addConfig_at. rewrite list_lookup_alter_eq.
    destruct (objects g !! i) as [o|] eqn:Eo; [|discriminate].
    rewrite (lookup_app_l_Some _ _ _ _ Eo). simpl in *.
    injection Hreg as ->. reflexivity.
Qed.

Lemma C3_witness :
  In Scenario.data_rule (toArray (Batch [Scenario.data_rule; Scenario.data_rule])) /\
  same_key Scenario.data_rule Scenario.data_rule = true /\
  (key_count Scenario.data_rule [] <= 1)%nat /\
  key_count Scenario.data_rule
    (addConfig [] (Batch [Scenario.data_rule; Scenario.data_rule])) = 1%nat.
Proof.
  split; [left; reflexivity|].
  split; [reflexivity|].
  split; [unfold key_count; simpl; lia|].
  apply (C3_addConfig_one_entry_per_key []
           (Batch [Scenario.data_rule; Scenario.data_rule])
           Scenario.data_rule Scenario.data_rule pristine).
  - left; reflexivity.
  - left; reflexivity.
  - reflexivity.
  - unfold key_count; simpl; lia.
Defined.

(** C3, as stated, fails for the initial batch of the constructor: the
    same rule given twice to the first construction is registered twice. *)
Lemma C3_counterexample :
  isHijacked pristine = false /\
  registry (snd Scenario.doubled_session) (fst Scenario.doubled_session)
  = Some [Scenario.data_rule; Scenario.data_rule] /\
  key_count Scenario.data_rule [Scenario.data_rule; Scenario.data_rule] = 2%nat.
Proof. repeat split; reflexivity. Qed.

(** ** Lifecycle *)

Lemma construct_active_instance (options : Options) (g : Realm) (i : nat) :
  isHijacked g = true -> INSTANCE g = Some i ->
  construct options g =
  (i, mkRealm (XMLHttpRequest_open g) (XMLHttpRequest_send g) (window_fetch g)
        true (Some i) (addConfig_at i options (objects g ++ [blank_instance]))
        (console g)).
Proof. intros Hon Hinst. unfold construct. rewrite Hon, Hinst. reflexivity. Qed.

Lemma construct_active_orphan (options : Options) (g : Realm) :
  isHijacked g = true -> INSTANCE g = None ->
  construct options g =
  (length (objects g),
   mkRealm (XMLHttpRequest_open g) (XMLHttpRequest_send g) (window_fetch g)
     true None (objects g ++ [blank_instance]) (console g ++ [already_activated])).
Proof. intros Hon Hinst. unfold construct. rewrite Hon, Hinst. reflexivity. Qed.

(** C8 (amended). A construction while a session is active installs
    nothing: the three entry points, the flag and [INSTANCE] stay as they
    are.  When [INSTANCE] holds the session, the rules are forwarded to its
    [addConfig], the expression evaluates to that instance, every other
    instance is left alone, and nothing is written to the console.  When the
    flag is set and [INSTANCE] is empty, the warning is written, the rules
    are dropped and the expression evaluates to the blank object [new]
    allocated. *)
Theorem C8_construction_while_active (options : Options) (g : Realm) :
  isHijacked g = true ->
  let r := fst (construct options g) in
  let g' := snd (construct options g) in
  entry_points g' = entry_points g /\
  isHijacked g' = true /\
  INSTANCE g' = INSTANCE g /\
  (forall i o, INSTANCE g = Some i -> objects g !! i = Some o ->
     r = i /\
     objects g' !! i =
       Some (mkInterceptor (addConfig (interceptConfigs o) options)
               (originalXHRopen o) (originalXHRsend o) (originalFetch o)) /\
     (forall j, j <> i -> (j < length (objects g))%nat ->
                objects g' !! j = objects g !! j) /\
     console g' = console g) /\
  (INSTANCE g = None ->
     r = length (objects g) /\
     objects g' = objects g ++ [blank_instance] /\
     console g' = console g ++ [already_activated]).
Proof.
  intros Hon. cbv zeta.
  destruct (INSTANCE g) as [i|] eqn:Hinst.
  - rewrite (construct_active_instance options g i Hon Hinst). simpl.
    repeat split; try discriminate.
    + injection H as <-. reflexivity.
    + injection H as <-. unfold addConfig_at.
      rewrite list_lookup_alter_eq, (lookup_app_l_Some _ _ _ _ H0). reflexivity.
    + injection H as <-. intros j Hne Hlt. unfold addConfig_at.
      rewrite list_lookup_alter_ne by congruence.
      apply lookup_app_l. exact Hlt.
  - rewrite (construct_active_orphan options g Hon Hinst). simpl.
    repeat split; discriminate.
Qed.

Lemma C8_witness :
  isHijacked (snd Scenario.first_session) = true /\
  entry_points (snd Scenario.second_construction)
  = entry_points (snd Scenario.first_session) /\
  isHijacked Scenario.flag_without_instance = true /\
  console (snd Scenario.orphan_construction) = [already_activated].
Proof.
  split; [reflexivity|].
  split.
  - apply (C8_construction_while_active (Single Scenario.other_rule)
             (snd Scenario.first_session)).
    reflexivity.
  - split; [reflexivity|].
    pose proof (C8_construction_while_active (Single Scenario.data_rule)
                  Scenario.flag_without_instance eq_refl) as W.
    cbv zeta in W. destruct W as (_ & _ & _ & _ & Horphan).
    destruct (Horphan eq_refl) as (_ & _ & Hconsole). exact Hconsole.
Defined.

(** C8, as stated, fails on the warning: the second construction of a page
    reuses the session of the first and writes nothing to the console; the
    warning appears only when [INSTANCE] is empty. *)
Lemma C8_counterexample :
  isHijacked (snd Scenario.first_session) = true /\
  INSTANCE (snd Scenario.first_session) = Some (fst Scenario.first_session) /\
  fst Scenario.second_construction = fst Scenario.first_session /\
  registry (snd Scenario.second_construction) (fst Scenario.first_session)
  = Some [Scenario.data_rule; Scenario.other_rule] /\
  console (snd Scenario.second_construction) = [].
Proof. repeat split; reflexivity. Qed.

(** C9. [restore] called on an instance assigns the instance's three
    captured originals to [XMLHttpRequest.prototype.open],
    [XMLHttpRequest.prototype.send] and [fetch], and leaves the flag,
    [INSTANCE], every instance and the console as they were.  A later
    construction therefore takes the branch of an active session: it
    evaluates to the old instance, appends its rules to that instance's
    registry through [addConfig], and leaves the entry points on the
    originals.  For the session a first construction created, the
    originals are the entry points that construction found. *)
Theorem C9_restore_frame (g : Realm) (this : nat) (o : XHRAndFetchInterceptor) :
  objects g !! this = Some o ->
  let g' := restore this g in
  XMLHttpRequest_open g' = originalXHRopen o /\
  XMLHttpRequest_send g' = originalXHRsend o /\
  window_fetch g' = originalFetch o /\
  isHijacked g' = isHijacked g /\
  INSTANCE g' = INSTANCE g /\
  objects g' = objects g /\
  console g' = console g /\
  (forall options i cfgs,
     isHijacked g = true -> INSTANCE g = Some i -> registry g i = Some cfgs ->
     fst (construct options g') = i /\
     entry_points (snd (construct options g'))
     = (originalXHRopen o, originalXHRsend o, originalFetch o) /\
     isHijacked (snd (construct options g')) = true /\
     registry (snd (construct options g')) i = Some (addConfig cfgs options)) /\
  (forall options g0,
     isHijacked g0 = false -> construct options g0 = (this, g) ->
     entry_points g' = entry_points g0).
Proof.
  intros Hobj. cbv zeta. unfold restore. rewrite Hobj. simpl.
  repeat split; try reflexivity;
    try (intros options g0 Hoff Hnew; unfold construct in Hnew;
         rewrite Hoff in Hnew; injection Hnew as <- <-;
         cbn [objects] in Hobj; rewrite lookup_app_r in Hobj by lia;
         rewrite Nat.sub_diag in Hobj; injection Hobj as <-; reflexivity).
  - rewrite (construct_active_instance options _ i) by assumption. reflexivity.
  - rewrite (construct_active_instance options _ i) by assumption. reflexivity.
  - rewrite (construct_active_instance options _ i) by assumption. reflexivity.
  - rewrite (construct_active_instance options _ i) by assumption.
    unfold registry in *. simpl. unfold addConfig_at. rewrite list_lookup_alter_eq.
    destruct (objects g !! i) as [oi|] eqn:Ei; [|discriminate].
    rewrite (lookup_app_l_Some _ _ _ _ Ei). simpl in *. congruence.
Qed.

Lemma C9_witness :
  objects (snd Scenario.first_session) !! 0%nat
  = Some (mkInterceptor [Scenario.data_rule] (Some NativeFn) (Some NativeFn) (Some NativeFn)) /\
  XMLHttpRequest_open (restore 0 (snd Scenario.first_session)) = Some NativeFn /\
  isHijacked (restore 0 (snd Scenario.first_session)) = true.
Proof.
  split; [reflexivity|].
  pose proof (C9_restore_frame (snd Scenario.first_session) 0%nat
                (mkInterceptor [Scenario.data_rule]
                   (Some NativeFn) (Some NativeFn) (Some NativeFn))
                eq_refl) as W.
  cbv zeta in W. destruct W as (Hopen & _ & _ & Hflag & _).
  split; [exact Hopen | exact Hflag].
Defined.

(** ** Computations *)

Lemma bind_ret_l {A B} (a : A) (k : A -> M B) : bind (ret a) k = k a.
Proof. unfold bind, ret. destruct (k a). reflexivity. Qed.

Lemma bind_emit {B} (evs : list Event) (k : unit -> M B) :
  bind (emit evs) k = (evs ++ fst (k tt), snd (k tt)).
Proof. unfold bind, emit. destruct (k tt). reflexivity. Qed.

Lemma bind_Ok {A B} (t : list Event) (a : A) (k : A -> M B) :
  bind (t, Ok a) k = (t ++ fst (k a), snd (k a)).
Proof. unfold bind. destruct (k a). reflexivity. Qed.

Lemma bind_lift_Ok {A B} (a : A) (k : A -> M B) : bind (lift (Ok a)) k = k a.
Proof. unfold lift. rewrite bind_Ok. destruct (k a). reflexivity. Qed.

Lemma bind_assoc {A B C} (c : M A) (k : A -> M B) (k' : B -> M C) :
  bind (bind c k) k' = bind c (fun a => bind (k a) k').
Proof.
  destruct c as [t [a| |]]; simpl; try reflexivity.
  destruct (k a) as [t1 [b| |]]; simpl; try reflexivity.
  destruct (k' b) as [t2 r]. rewrite app_assoc. reflexivity.
Qed.

(** ** Legacy adapter: events other than a 200 completion *)

(** As long as no field has been redefined, the object reads as the
    browser holds it. *)
Lemma view_of_native (this : XMLHttpRequestWithUrl) (s : Snapshot) (sh : Shadow) :
  redefined sh = false -> view_of this s sh = native_view this s.
Proof. unfold view_of, native_view. intros ->. reflexivity. Qed.

Section LegacyFacts.
Context `{H : Host}.
Variable configs : list InjectConfig.
Variable resend : XMLHttpRequestWithUrl -> JsVal -> M unit.

Lemma xhr_onreadystatechange_passthrough
    (this : XMLHttpRequestWithUrl) (body : JsVal) (h : option Handler)
    (sh : Shadow) (s : Snapshot) :
  redefined sh = false ->
  s_readyState s <> 4 \/ s_status s <> 200 ->
  xhr_onreadystatechange configs resend this body h sh s
  = (match h with Some f => f (view_of this s sh) | None => [] end, Ok sh).
Proof.
  intros Hred Hs. unfold xhr_onreadystatechange.
  rewrite (view_of_native this s sh Hred) at 1 2. cbn [native_view readyState status].
  assert (E : (s_readyState s =? 4) && (s_status s =? 200) = false).
  { destruct Hs as [Hs | Hs]; apply Z.eqb_neq in Hs; rewrite Hs;
      [reflexivity | apply andb_false_r]. }
  rewrite E. destruct h as [f|]; simpl; [rewrite app_nil_r|]; reflexivity.
Qed.

Lemma xhr_dispatch_passthrough
    (this : XMLHttpRequestWithUrl) (body : JsVal) (h : option Handler)
    (sh : Shadow) (events : list Snapshot) :
  redefined sh = false ->
  Forall (fun s => s_readyState s <> 4 \/ s_status s <> 200) events ->
  xhr_dispatch (xhr_onreadystatechange configs resend this body h) sh events
  = (flat_map (fun s => match h with Some f => f (view_of this s sh) | None => [] end)
       events, Ok tt).
Proof.
  intros Hred Hall. induction Hall as [|s events Hs _ IH]; [reflexivity|].
  cbn [xhr_dispatch flat_map].
  rewrite (xhr_onreadystatechange_passthrough this body h sh s Hred Hs), IH.
  reflexivity.
Qed.

End LegacyFacts.

Lemma hijackXHR_send_unfold `{H : Host} (fuel : nat) (configs : list InjectConfig)
    (this : XMLHttpRequestWithUrl) (body : JsVal) :
  hijackXHR_send fuel configs this body
  = send_body configs
      (match fuel with
       | O => fun _ _ => out_of_fuel
       | S n => hijackXHR_send n configs
       end)
      this body.
Proof. destruct fuel; reflexivity. Qed.

(** C10. On the legacy transport the wrapped handler, run for an event
    that is not a completion (ready state 4) with status 200 -- whether the
    status is 201, 204, a redirect or an error -- does not enter the
    response loop: it calls the page's handler on the fields the browser
    holds and does nothing else (no [preCallback], [callback] or
    [lastCallback] is invoked, no field is redefined).  Hence, when none of
    the events of a call is a completion with status 200, the trace after
    the native [send] consists of the calls of the page's handler alone,
    one per event. *)
Theorem C10_pipeline_only_on_200 `{H : Host}
    (fuel : nat) (configs : list InjectConfig)
    (this this' : XMLHttpRequestWithUrl) (body body' : JsVal) (t0 : list Event) :
  xhr_beforeSend 0 configs (requestUrl_of this) this body = (t0, Ok (this', body')) ->
  Forall (fun s => s_readyState s <> 4 \/ s_status s <> 200)
    (xhr_network (request_of this' body')) ->
  hijackXHR_send fuel configs this body
  = (t0 ++ NativeSend (request_of this' body')
        :: flat_map (fun s => match x_onreadystatechange this with
                              | Some f => f (native_view this' s)
                              | None => []
                              end)
             (xhr_network (request_of this' body')),
     Ok tt) /\
  (forall resend x b h sh s,
     redefined sh = false ->
     s_readyState s <> 4 \/ s_status s <> 200 ->
     xhr_onreadystatechange configs resend x b h sh s
     = (match h with Some f => f (native_view x s) | None => [] end, Ok sh)).
Proof.
  intros Hpre Hall. split.
  - rewrite hijackXHR_send_unfold. unfold send_body.
    rewrite Hpre, bind_Ok. cbn beta iota.
    rewrite bind_emit, xhr_dispatch_passthrough by (reflexivity || exact Hall).
    reflexivity.
  - intros resend x b h sh s Hred Hs.
    rewrite (xhr_onreadystatechange_passthrough configs resend x b h sh s Hred Hs).
    rewrite (view_of_native x s sh Hred). reflexivity.
Qed.

Lemma C10_witness :
  Forall (fun s => s_readyState s <> 4 \/ s_status s <> 200)
    (xhr_network (Host := Scenario.created_host)
       (request_of (Scenario.opened Scenario.data_url) JNull)) /\
  handler_views
    (trace_of (hijackXHR_send (H := Scenario.created_host) 0 [Scenario.hooked_rule]
                 (Scenario.opened Scenario.data_url) JNull))
  = [mkProxy 201 (JStr "") "" "" (JStr "") JNull 2;
     mkProxy 201 (JStr "made") "" "" (JStr "made") JNull 4].
Proof.
  assert (Hall : Forall (fun s => s_readyState s <> 4 \/ s_status s <> 200)
                   (xhr_network (Host := Scenario.created_host)
                      (request_of (Scenario.opened Scenario.data_url) JNull))).
  { repeat (constructor; [right; discriminate|]). constructor. }
  split; [exact Hall|].
  destruct (C10_pipeline_only_on_200 (H := Scenario.created_host) 0
              [Scenario.hooked_rule]
              (Scenario.opened Scenario.data_url) (Scenario.opened Scenario.data_url)
              JNull JNull [] eq_refl Hall) as [Hrun _].
  rewrite Hrun. reflexivity.
Defined.

(** ** Legacy adapter: headers after a URL override *)

Lemma Map_get_set_eq {V : Type} (k : string) (v : V) (m : list (string * V)) :
  Map_get k (Map_set k v m) = Some v.
Proof.
  induction m as [|[k' v'] m IH]; simpl; [rewrite String.eqb_refl; reflexivity|].
  destruct (String.eqb k' k) eqn:E; simpl; [rewrite String.eqb_refl | rewrite E];
    auto.
Qed.

Lemma Map_get_set_ne {V : Type} (k k0 : string) (v : V) (m : list (string * V)) :
  k <> k0 -> Map_get k0 (Map_set k v m) = Map_get k0 m.
Proof.
  intros Hne. induction m as [|[k' v'] m IH]; simpl.
  - apply String.eqb_neq in Hne. rewrite Hne. reflexivity.
  - destruct (String.eqb k' k) eqn:E; simpl.
    + apply String.eqb_eq in E. subst k'. apply String.eqb_neq in Hne.
      rewrite Hne. reflexivity.
    + destruct (String.eqb k' k0); auto.
Qed.

(** What the recording wrapper of [setRequestHeader] captures: under the
    lower-cased name, the name and value of the call, in place of what an
    earlier call with the same name in any letter case had left; every
    other entry stays. *)
Lemma setRequestHeader_captures (this : XMLHttpRequestWithUrl)
    (captured : list (string * Header)) (name value : string) :
  x_requestHeaders this = Some captured ->
  exists this',
    setRequestHeader this name value = ([NativeSetRequestHeader name value], Ok this') /\
    (exists captured',
       x_requestHeaders this' = Some captured' /\
       Map_get (toLowerCase name) captured' = Some (mkHeader name value) /\
       forall k, k <> toLowerCase name -> Map_get k captured' = Map_get k captured) /\
    x_nativeHeaders this' = x_nativeHeaders this ++ [mkHeader name value].
Proof.
  intros Hcap. unfold setRequestHeader. rewrite Hcap. eexists. split; [reflexivity|].
  cbn [x_requestHeaders x_nativeHeaders]. split; [|reflexivity].
  eexists. split; [reflexivity|]. split; [apply Map_get_set_eq|].
  intros k Hk. apply Map_get_set_ne. congruence.
Qed.

Lemma reapply_headers_spec (savedHeaders : list (string * Header))
    (this : XMLHttpRequestWithUrl) :
  exists this',
    reapply_headers savedHeaders this
    = (map (fun h => NativeSetRequestHeader (h_name h) (h_value h))
         (kept_headers savedHeaders), Ok this') /\
    x_nativeHeaders this' = x_nativeHeaders this ++ kept_headers savedHeaders /\
    x_uri this' = x_uri this /\ x_method this' = x_method this /\
    x_responseType this' = x_responseType this /\
    x_onreadystatechange this' = x_onreadystatechange this.
Proof.
  revert this. induction savedHeaders as [|[k [name value]] rest IH]; intros this.
  - exists this. simpl. rewrite app_nil_r. repeat split.
  - cbn [reapply_headers]. unfold kept_headers in *.
    cbn [map snd List.filter h_name h_value].
    destruct (negb (String.eqb (toLowerCase name) "content-length")).
    + unfold setRequestHeader. rewrite bind_emit. cbn [ret fst snd].
      rewrite app_nil_r, bind_Ok.
      match goal with |- context [reapply_headers rest ?x] =>
        destruct (IH x) as (this' & -> & Hn & Hu & Hm & Ht & Hh) end.
      exists this'. cbn [fst snd x_nativeHeaders x_uri x_method x_responseType
                          x_onreadystatechange] in *.
      rewrite Hn, <- app_assoc. repeat split; assumption.
    + apply IH.
Qed.

Section PreSendFacts.
Context `{H : Host}.

Lemma xhr_beforeSend_skip (i : nat) (pre rest : list InjectConfig) (u : string)
    (this : XMLHttpRequestWithUrl) (body : JsVal) :
  Forall (fun c => rule_matches u (x_method this) c = false) pre ->
  xhr_beforeSend i (pre ++ rest) u this body
  = xhr_beforeSend (i + length pre) rest u this body.
Proof.
  intros Hpre. revert i. induction Hpre as [|c pre Hc _ IH]; intros i.
  - simpl. rewrite Nat.add_0_r. reflexivity.
  - cbn [app xhr_beforeSend length]. rewrite Hc, IH. f_equal. lia.
Qed.

(** The pre-send loop when the first matching rule has a hook that returns
    a replacement URL. *)
Lemma xhr_beforeSend_override
    (configs pre post : list InjectConfig) (config : InjectConfig)
    (hook : IRequestInfo -> option BeforeSendCallBackResult)
    (this : XMLHttpRequestWithUrl) (body : JsVal) (u newUrl : URL)
    (result : BeforeSendCallBackResult) (captured : list (string * Header)) :
  configs = pre ++ config :: post ->
  Forall (fun c => rule_matches (requestUrl_of this) (x_method this) c = false) pre ->
  rule_matches (requestUrl_of this) (x_method this) config = true ->
  beforeSendCallback config = Some hook ->
  parse_URL (requestUrl_of this) = Some u ->
  hook (mkRequestInfo u body) = Some result ->
  bs_url result = Some newUrl ->
  x_requestHeaders this = Some captured ->
  exists this' body',
    xhr_beforeSend 0 configs (requestUrl_of this) this body
    = (BeforeSendCalled (length pre) (mkRequestInfo u body)
         :: NativeOpen (x_method this) (Some (href newUrl))
         :: map (fun h => NativeSetRequestHeader (h_name h) (h_value h))
              (kept_headers captured),
       Ok (this', body')) /\
    rq_uri (request_of this' body') = Some (href newUrl) /\
    rq_method (request_of this' body') = x_method this /\
    rq_headers (request_of this' body') = kept_headers captured /\
    Forall (fun h => In h (map snd captured) /\
                     toLowerCase (h_name h) <> "content-length")
      (rq_headers (request_of this' body')).
Proof.
  intros -> Hpre Hmatch Hhook Hparse Hres Hurl Hcap.
  rewrite (xhr_beforeSend_skip 0 pre (config :: post) _ this body Hpre).
  cbn [xhr_beforeSend Nat.add]. rewrite Hmatch, Hhook.
  unfold new_URL. rewrite Hparse, bind_lift_Ok.
  cbn [x_requestHeaders x_method x_uri]. rewrite Hres, Hurl, Hcap.
  unfold native_open. cbn [bind emit ret app].
  match goal with |- context [reapply_headers captured ?x] =>
    destruct (reapply_headers_spec captured x)
      as (this' & -> & Hn & Hu & Hm & Ht & Hh) end.
  cbn [bind ret app x_nativeHeaders x_uri x_method] in *.
  eexists this', _. split; [rewrite app_nil_r; reflexivity|].
  unfold request_of. cbn [rq_uri rq_method rq_headers].
  rewrite Hu, Hm, Hn. repeat split.
  unfold kept_headers. apply List.Forall_forall. intros h Hin.
  apply List.filter_In in Hin as [Hin Hneq].
  split; [exact Hin|].
  apply negb_true_iff, String.eqb_neq in Hneq. exact Hneq.
Qed.

(** C6. When the first rule matching a legacy call has a pre-send hook
    that returns a replacement URL, [send] calls the native [open] again
    with the call's method and that URL and then sets again, in the
    order of the map, every captured header whose name is not
    [content-length] in any letter case, with the name and the value as
    they were captured; nothing else happens before the native [send], and
    the request handed to the transport carries exactly these headers.
    (The map holds one entry per lower-cased name, see
    [setRequestHeader_captures].) *)
Theorem C6_headers_reapplied_after_override
    (fuel : nat) (configs pre post : list InjectConfig) (config : InjectConfig)
    (hook : IRequestInfo -> option BeforeSendCallBackResult)
    (this : XMLHttpRequestWithUrl) (body : JsVal) (u newUrl : URL)
    (result : BeforeSendCallBackResult) (captured : list (string * Header)) :
  configs = pre ++ config :: post ->
  Forall (fun c => rule_matches (requestUrl_of this) (x_method this) c = false) pre ->
  rule_matches (requestUrl_of this) (x_method this) config = true ->
  beforeSendCallback config = Some hook ->
  parse_URL (requestUrl_of this) = Some u ->
  hook (mkRequestInfo u body) = Some result ->
  bs_url result = Some newUrl ->
  x_requestHeaders this = Some captured ->
  exists rq after,
    trace_of (hijackXHR_send fuel configs this body)
    = BeforeSendCalled (length pre) (mkRequestInfo u body)
        :: NativeOpen (x_method this) (Some (href newUrl))
        :: map (fun h => NativeSetRequestHeader (h_name h) (h_value h))
             (kept_headers captured)
        ++ NativeSend rq :: after /\
    rq_uri rq = Some (href newUrl) /\
    rq_method rq = x_method this /\
    rq_headers rq = kept_headers captured /\
    Forall (fun h => In h (map snd captured) /\
                     toLowerCase (h_name h) <> "content-length")
      (rq_headers rq).
Proof.
  intros Hcfg Hpre Hmatch Hhook Hparse Hres Hurl Hcap.
  destruct (xhr_beforeSend_override configs pre post config hook this body u newUrl
              result captured Hcfg Hpre Hmatch Hhook Hparse Hres Hurl Hcap)
    as (this' & body' & Hrun & Huri & Hmeth & Hheaders & Hall).
  exists (request_of this' body').
  eexists. split; [|repeat split; assumption].
  unfold trace_of. rewrite hijackXHR_send_unfold. unfold send_body.
  rewrite Hrun, bind_Ok. cbn beta iota. rewrite bind_emit. cbn [fst app].
  reflexivity.
Qed.

End PreSendFacts.

Lemma C6_witness :
  rule_matches (H := ExampleHost.plain)
    (requestUrl_of (H := ExampleHost.plain) Scenario.with_headers)
    (x_method Scenario.with_headers) Scenario.moving_rule = true /\
  exists rq after,
    trace_of (hijackXHR_send (H := ExampleHost.plain) 0 [Scenario.moving_rule]
                Scenario.with_headers (JStr "payload"))
    = [BeforeSendCalled 0 (mkRequestInfo Scenario.data_URL (JStr "payload"));
       NativeOpen (Some "POST") (Some "https://example.com/api/v2");
       NativeSetRequestHeader "X-Token" "abc";
       NativeSetRequestHeader "Accept" "text/plain"]
      ++ NativeSend rq :: after /\
    rq_headers rq = [mkHeader "X-Token" "abc"; mkHeader "Accept" "text/plain"].
Proof.
  split; [reflexivity|].
  destruct (C6_headers_reapplied_after_override (H := ExampleHost.plain) 0
              [Scenario.moving_rule] [] [] Scenario.moving_rule
              (fun _ => Some (mkBeforeSendResult (Some Scenario.v2_url) JUndefined))
              Scenario.with_headers (JStr "payload")
              (mkURL Scenario.data_url "https:" "example.com" "/api/data" "" "")
              Scenario.v2_url
              (mkBeforeSendResult (Some Scenario.v2_url) JUndefined)
              [("x-token", mkHeader "X-Token" "abc");
               ("content-length", mkHeader "Content-Length" "12");
               ("accept", mkHeader "Accept" "text/plain")]
              eq_refl (List.Forall_nil _) eq_refl eq_refl eq_refl eq_refl eq_refl eq_refl)
    as (rq & after & Hrun & _ & _ & Hheaders & _).
  exists rq, after. split; [exact Hrun | exact Hheaders].
Defined.

(** ** Post-response hook: what the caller reads *)

Lemma string_length_append (a b : string) :
  String.length (String.append a b) = (String.length a + String.length b)%nat.
Proof. induction a as [|c a IH]; simpl; [reflexivity | rewrite IH; reflexivity]. Qed.

Lemma escape_char_nonempty (c : ascii) : (1 <= String.length (escape_char c))%nat.
Proof.
  unfold escape_char.
  repeat match goal with |- context [if ?b then _ else _] => destruct b end;
    simpl; lia.
Qed.

Lemma escape_length (s : string) : (String.length s <= String.length (escape s))%nat.
Proof.
  induction s as [|c s IH]; simpl; [lia|].
  rewrite string_length_append. pose proof (escape_char_nonempty c). lia.
Qed.

(** [JSON.stringify] of a string is never that string: it is two
    characters longer at least. *)
Lemma quote_differs (s : string) : quote s <> s.
Proof.
  intros E. apply (f_equal String.length) in E. unfold quote in E.
  simpl in E. rewrite string_length_append in E. simpl in E.
  pose proof (escape_length s). lia.
Qed.

(** What the legacy adapter stores when a post-response hook returns [v]:
    the value itself in [response], [JSON.stringify(v)] in [responseText],
    for a string the quoted text. *)
Lemma set_body_fields (p : XMLHttpRequestProxy) (v : JsVal) :
  response (set_body p v) = v /\
  responseText (set_body p v) = JSON_stringify v /\
  forall s, v = JStr s ->
            responseText (set_body p v) = JStr (quote s) /\
            responseText (set_body p v) <> JStr s.
Proof.
  repeat split; intros; subst; simpl; [reflexivity|].
  intros E. injection E. apply quote_differs.
Qed.

(** C4. A rule whose [lastCallback] returns the string [ok], and a GET to
    its URL that the server answers with 200: over XHR the page's handler
    reads [response = "ok"] and a [responseText] of four characters, the
    text [ok] between double quotes, not the string the hook returned; over
    fetch the body of the response is [ok] itself. *)
Theorem C4_string_return_is_quoted_on_xhr :
  completions (trace_of Scenario.ok_over_xhr)
  = [mkProxy 200 (JStr "ok") "" ""
       (JStr (String dquote (String "o" (String "k" (String dquote EmptyString)))))
       JNull 4] /\
  String dquote (String "o" (String "k" (String dquote EmptyString))) <> "ok" /\
  result_of Scenario.ok_over_fetch
  = Ok (mkResponse "" 200 "" [mkHeader "content-type" "text/plain;charset=UTF-8"] "ok").
Proof.
  split; [reflexivity|].
  split; [discriminate|].
  reflexivity.
Qed.

(** ** Response stage: which rules run *)







(** On the shadow record [getResponseData] reads plain fields. *)
Lemma getResponseData_own (xhr : XMLHttpRequestProxy) :
  getResponseData OwnProperty xhr
  = Ok (if String.eqb (responseType xhr) "json" then response xhr else responseText xhr).
Proof.
  unfold getResponseData, read_responseText.
  destruct (String.eqb (responseType xhr) "json"); reflexivity.
Qed.


Section ResponseStage.
Context `{H : Host}.
Variable resend : XMLHttpRequestWithUrl -> JsVal -> M unit.

Lemma xhr_response_skip (i : nat) (c : InjectConfig) (rest : list InjectConfig)
    (this : XMLHttpRequestWithUrl) (body : JsVal) (s : Snapshot)
    (h : option Handler) (sh : Shadow) :
  rule_matches (s_responseURL s) (x_method this) c = false ->
  xhr_response resend i (c :: rest) this body s h sh
  = xhr_response resend (S i) rest this body s h sh.
Proof.
  unfold rule_matches. intros Hno. cbn [xhr_response].
  destruct (isTargetUrl (s_responseURL s) (url c)),
           (isMethodEqual (x_method this) (method c)); try discriminate; reflexivity.
Qed.

(** One turn of the completion loop on a matching rule whose
    [preCallback], if any, accepts: its hooks are invoked on the data
    [getResponseData] read, and the loop goes on with the next rule. *)
Lemma xhr_response_match (i : nat) (c : InjectConfig) (rest : list InjectConfig)
    (this : XMLHttpRequestWithUrl) (body : JsVal) (s : Snapshot)
    (h : option Handler) (sh : Shadow) (u : URL) (data : JsVal) :
  rule_matches (s_responseURL s) (x_method this) c = true ->
  genUrl (s_responseURL s) = Ok u ->
  getResponseData (text_access sh) (view_of this s sh) = Ok data ->
  (forall pre, preCallback c = Some pre ->
     fst (pre data (mkRequestInfo u body)) = true) ->
  let info := mkRequestInfo u body in
  let next := xhr_response resend (S i) rest this body s h
                (xhr_rule_shadow c data info sh) in
  xhr_response resend i (c :: rest) this body s h sh
  = (xhr_rule_events i c data info ++ fst next, snd next).
Proof.
  unfold rule_matches. intros Hyes Hgen Hdata Hacc. apply andb_prop in Hyes as [Hu Hm].
  cbv zeta. cbn [xhr_response]. rewrite Hu, Hm, Hgen, Hdata. cbn [negb orb].
  rewrite !bind_lift_Ok. unfold xhr_rule_events, xhr_rule_shadow.
  destruct (preCallback c) as [pre|] eqn:Epre.
  - specialize (Hacc pre eq_refl). rewrite !bind_lift_Ok.
    destruct (pre data (mkRequestInfo u body)) as [isValid newBody] eqn:Eres.
    simpl in Hacc. subst isValid. rewrite bind_emit. cbn [negb].
    destruct (callback c), (lastCallback c);
      rewrite ?bind_emit, ?bind_ret_l; reflexivity.
  - destruct (callback c), (lastCallback c);
      rewrite ?bind_emit, ?bind_ret_l; cbn [app fst snd];
      try reflexivity.
    destruct (xhr_response _ _ _ _ _ _ _ _); reflexivity.
Qed.

(** One turn of the completion loop on a matching rule when
    [getResponseData] throws: the wrapped handler is left at once, before
    any hook of the rule. *)
Lemma xhr_response_unreadable (i : nat) (c : InjectConfig) (rest : list InjectConfig)
    (this : XMLHttpRequestWithUrl) (body : JsVal) (s : Snapshot)
    (h : option Handler) (sh : Shadow) (u : URL) (e : Error) :
  rule_matches (s_responseURL s) (x_method this) c = true ->
  genUrl (s_responseURL s) = Ok u ->
  getResponseData (text_access sh) (view_of this s sh) = Throw e ->
  xhr_response resend i (c :: rest) this body s h sh = ([], Throw e).
Proof.
  unfold rule_matches. intros Hyes Hgen Hdata. apply andb_prop in Hyes as [Hu Hm].
  cbn [xhr_response]. rewrite Hu, Hm, Hgen, Hdata. cbn [negb orb].
  rewrite bind_lift_Ok. destruct (preCallback c); reflexivity.
Qed.






Lemma fetch_response_skip (i : nat) (c : InjectConfig) (rest : list InjectConfig)
    (m : string) (init : option RequestInit) (response : Response) :
  rule_matches (rs_url response) (Some m) c = false ->
  fetch_response i (c :: rest) m init response
  = fetch_response (S i) rest m init response.
Proof. intros Hno. cbn [fetch_response]. rewrite Hno. reflexivity. Qed.

(** One turn of the modern response loop on a matching rule: its hooks are
    invoked; with a [lastCallback] the loop ends there, without one it goes
    on with the next rule. *)
Lemma fetch_response_match (i : nat) (c : InjectConfig) (rest : list InjectConfig)
    (m : string) (init : option RequestInit) (response : Response) (u : URL) :
  rule_matches (rs_url response) (Some m) c = true ->
  genUrl (rs_url response) = Ok u ->
  let data := parsed_or_raw (rs_body response) in
  let info := mkRequestInfo u (init_body_of init) in
  let next := fetch_response (S i) rest m init response in
  fetch_response i (c :: rest) m init response
  = match lastCallback c with
    | Some hook =>
        (fetch_rule_events i c data info,
         new_Response
           (if is_string (hook data info) then hook data info
            else JSON_stringify (hook data info))
           (rs_status response) (rs_statusText response) (rs_headers response))
    | None => (fetch_rule_events i c data info ++ fst next, snd next)
    end.
Proof.
  intros Hyes Hgen. cbv zeta. cbn [fetch_response]. rewrite Hyes, Hgen.
  rewrite bind_lift_Ok. unfold fetch_rule_events.
  destruct (callback c), (lastCallback c);
    rewrite ?bind_emit, ?bind_ret_l; unfold lift; cbn [app fst snd];
    try reflexivity.
  destruct (fetch_response _ _ _ _ _); reflexivity.
Qed.






End ResponseStage.



(** ** Legacy adapter: a superseded call *)

Lemma redirect_app (h : Handler) (t1 t2 : list Event) :
  redirect h (t1 ++ t2) = redirect h t1 ++ redirect h t2.
Proof. unfold redirect. apply flat_map_app. Qed.

Lemma redirect_handler_free (h : Handler) (t : list Event) :
  handler_free t -> redirect h t = t.
Proof.
  induction 1 as [|e t He _ IH]; [reflexivity|].
  unfold redirect in *. cbn [flat_map]. rewrite IH.
  destruct e; try reflexivity. discriminate.
Qed.

Lemma handler_free_app (t1 t2 : list Event) :
  handler_free t1 -> handler_free t2 -> handler_free (t1 ++ t2).
Proof. unfold handler_free. intros. apply Forall_app. auto. Qed.

Lemma redirectM_bind {A B} (h : Handler) (c : M A) (k : A -> M B) :
  redirectM h (bind c k) = bind (redirectM h c) (fun a => redirectM h (k a)).
Proof.
  destruct c as [t [a| |]]; unfold redirectM; simpl; try reflexivity.
  destruct (k a) as [t' r]. simpl. rewrite redirect_app. reflexivity.
Qed.

Lemma redirectM_ret {A} (h : Handler) (a : A) : redirectM h (ret a) = ret a.
Proof. reflexivity. Qed.

Lemma redirectM_lift {A} (h : Handler) (r : Res A) : redirectM h (lift r) = lift r.
Proof. reflexivity. Qed.

Lemma redirectM_emit_free (h : Handler) (evs : list Event) :
  handler_free evs -> redirectM h (emit evs) = emit evs.
Proof. intros Hfree. unfold redirectM, emit. simpl. rewrite redirect_handler_free; auto. Qed.

Lemma redirectM_call_handler (h : Handler) (v : XMLHttpRequestProxy) :
  redirectM h (call_handler (Some page_handler) v) = call_handler (Some h) v.
Proof. unfold redirectM, call_handler, emit, page_handler. simpl. rewrite app_nil_r. reflexivity. Qed.

Lemma bind_mapM {A B C} (f : A -> B) (c : M A) (k : B -> M C) :
  bind (mapM f c) k = bind c (fun a => k (f a)).
Proof. destruct c as [t [a| |]]; reflexivity. Qed.

Lemma mapM_bind {A B C} (f : B -> C) (c : M A) (k : A -> M B) :
  mapM f (bind c k) = bind c (fun a => mapM f (k a)).
Proof.
  destruct c as [t [a| |]]; try reflexivity.
  unfold mapM. simpl. destruct (k a) as [t' r]. reflexivity.
Qed.

Lemma bind_ext {A B} (c : M A) (k k' : A -> M B) :
  (forall a, k a = k' a) -> bind c k = bind c k'.
Proof. intros E. destruct c as [t [a| |]]; simpl; [rewrite E|..]; reflexivity. Qed.

(** The handler an object carries plays no part in what [open],
    [setRequestHeader] and the pre-send loop do. *)
Lemma setRequestHeader_handler (this : XMLHttpRequestWithUrl) (g : option Handler)
    (name value : string) :
  setRequestHeader (set_onreadystatechange this g) name value
  = mapM (fun x => set_onreadystatechange x g) (setRequestHeader this name value).
Proof. reflexivity. Qed.

Lemma reapply_headers_handler (savedHeaders : list (string * Header))
    (this : XMLHttpRequestWithUrl) (g : option Handler) :
  reapply_headers savedHeaders (set_onreadystatechange this g)
  = mapM (fun x => set_onreadystatechange x g) (reapply_headers savedHeaders this).
Proof.
  revert this. induction savedHeaders as [|[k header] rest IH]; intros this.
  - reflexivity.
  - cbn [reapply_headers].
    destruct (negb (String.eqb (toLowerCase (h_name header)) "content-length")).
    + rewrite setRequestHeader_handler, bind_mapM, mapM_bind.
      apply bind_ext. intros x. apply IH.
    + apply IH.
Qed.

Section Naturality.
Context `{H : Host}.

Lemma xhr_beforeSend_handler (i : nat) (cfgs : list InjectConfig) (u : string)
    (this : XMLHttpRequestWithUrl) (g : option Handler) (body : JsVal) :
  xhr_beforeSend i cfgs u (set_onreadystatechange this g) body
  = mapM (fun p => (set_onreadystatechange (fst p) g, snd p))
      (xhr_beforeSend i cfgs u this body).
Proof.
  revert i. induction cfgs as [|c rest IH]; intros i; [reflexivity|].
  cbn [xhr_beforeSend set_onreadystatechange x_method x_uri x_requestHeaders
       x_nativeHeaders x_responseType x_onreadystatechange].
  destruct (rule_matches u (x_method this) c); [|apply IH].
  destruct (beforeSendCallback c) as [hook|]; [|reflexivity].
  rewrite mapM_bind. apply bind_ext. intros parsed.
  rewrite mapM_bind. apply bind_ext. intros _.
  destruct (bs_url _) as [newUrl|]; [|reflexivity].
  rewrite mapM_bind. unfold native_open. rewrite !bind_assoc.
  apply bind_ext. intros _. rewrite !bind_ret_l.
  cbn [x_uri x_method x_requestHeaders x_nativeHeaders x_responseType
       x_onreadystatechange].
  rewrite mapM_bind.
  match goal with |- bind (reapply_headers ?hs ?x) _ = bind (reapply_headers ?hs ?y) _ =>
    change x with (set_onreadystatechange y g) end.
  rewrite reapply_headers_handler, bind_mapM. reflexivity.
Qed.

Lemma redirect_supersede_handler (g : Handler) (i : nat) (c : InjectConfig)
    (info : IRequestInfo) (p : XMLHttpRequestProxy) (t : list Event) :
  redirect g (redirect (supersede_handler i c info p (Some page_handler)) t)
  = redirect (supersede_handler i c info p (Some g)) t.
Proof.
  induction t as [|e t IH]; [reflexivity|].
  change (e :: t) with ([e] ++ t). rewrite !redirect_app, IH. f_equal.
  destruct e; try reflexivity.
  unfold redirect, supersede_handler, page_handler. cbn [flat_map].
  destruct (readyState view =? 4); [|reflexivity].
  rewrite !app_nil_r.
  destruct (lastCallback c) as [hook|].
  - destruct (getResponseData OwnProperty (copy_from p view)) as [d|err|];
      cbn [flat_map app]; rewrite ?app_nil_r; reflexivity.
  - cbn [flat_map app]. rewrite app_nil_r. reflexivity.
Qed.

Lemma xhr_response_natural
    (resend : XMLHttpRequestWithUrl -> JsVal -> M unit) (cfgs : list InjectConfig)
    (this : XMLHttpRequestWithUrl) (body : JsVal) (s : Snapshot) (g : Handler) :
  natural resend ->
  forall i sh,
    xhr_response resend i cfgs (set_onreadystatechange this (Some g)) body s (Some g) sh
    = redirectM g
        (xhr_response resend i cfgs (set_onreadystatechange this (Some page_handler))
           body s (Some page_handler) sh).
Proof.
  intros Hnat. induction cfgs as [|c rest IH]; intros i sh; [reflexivity|].
  cbn [xhr_response].
  change (x_method (set_onreadystatechange this (Some g))) with (x_method this).
  change (x_method (set_onreadystatechange this (Some page_handler)))
    with (x_method this).
  change (view_of (set_onreadystatechange this (Some g))) with (view_of this).
  change (view_of (set_onreadystatechange this (Some page_handler)))
    with (view_of this).
  destruct (negb (isTargetUrl (s_responseURL s) (url c))
            || negb (isMethodEqual (x_method this) (method c))); [apply IH|].
  destruct (genUrl (s_responseURL s)) as [u|e|]; [|reflexivity|reflexivity].
  rewrite !bind_lift_Ok. cbv zeta.
  match goal with
  | |- match preCallback c with
       | Some pre1 => _
       | None => ?restg
       end
       = redirectM g match preCallback c with
                     | Some pre2 => _
                     | None => ?restp
                     end =>
      assert (Hrest : restg = redirectM g restp)
  end.
  { rewrite redirectM_bind, redirectM_lift. apply bind_ext. intros responseData.
    rewrite redirectM_bind. destruct (callback c).
    - rewrite redirectM_emit_free by (repeat constructor).
      apply bind_ext. intros _.
      destruct (lastCallback c); [|apply IH].
      rewrite redirectM_bind, redirectM_emit_free by (repeat constructor).
      apply bind_ext. intros _. apply IH.
    - rewrite redirectM_ret. apply bind_ext. intros _.
      destruct (lastCallback c); [|apply IH].
      rewrite redirectM_bind, redirectM_emit_free by (repeat constructor).
      apply bind_ext. intros _. apply IH. }
  destruct (preCallback c) as [pre|]; [|exact Hrest].
  rewrite redirectM_bind, redirectM_lift. apply bind_ext. intros data.
  rewrite redirectM_bind, redirectM_emit_free by (repeat constructor).
  apply bind_ext. intros _.
  destruct (pre _ _) as [isValid newBody].
  destruct isValid; cbn [negb]; [exact Hrest|].
  rewrite redirectM_bind.
  change (redirectM g (hijackXHR_open new_XMLHttpRequest (x_method this) (pr_uri newBody)))
    with (hijackXHR_open new_XMLHttpRequest (x_method this) (pr_uri newBody)).
  apply bind_ext. intros newRequest.
  rewrite redirectM_bind.
  rewrite (Hnat newRequest (supersede_handler i c (mkRequestInfo u body) (proxy sh) (Some g))).
  rewrite (Hnat newRequest
             (supersede_handler i c (mkRequestInfo u body) (proxy sh) (Some page_handler))).
  unfold redirectM at 3. unfold redirectM at 2. cbn [fst snd].
  rewrite redirect_supersede_handler. reflexivity.
Qed.

Lemma xhr_onreadystatechange_natural
    (configs : list InjectConfig)
    (resend : XMLHttpRequestWithUrl -> JsVal -> M unit)
    (this : XMLHttpRequestWithUrl) (body : JsVal) (g : Handler)
    (sh : Shadow) (s : Snapshot) :
  natural resend ->
  xhr_onreadystatechange configs resend (set_onreadystatechange this (Some g))
    body (Some g) sh s
  = redirectM g
      (xhr_onreadystatechange configs resend
         (set_onreadystatechange this (Some page_handler)) body (Some page_handler) sh s).
Proof.
  intros Hnat. unfold xhr_onreadystatechange.
  change (view_of (set_onreadystatechange this (Some g))) with (view_of this).
  change (view_of (set_onreadystatechange this (Some page_handler)))
    with (view_of this).
  destruct ((readyState (view_of this s sh) =? 4) && (status (view_of this s sh) =? 200)).
  - rewrite redirectM_bind, (xhr_response_natural resend configs this body s g Hnat).
    apply bind_ext. intros [sh'|]; [|reflexivity].
    rewrite redirectM_bind, redirectM_call_handler. reflexivity.
  - rewrite redirectM_bind, redirectM_call_handler. reflexivity.
Qed.

Lemma xhr_dispatch_natural (on_g on_page : Shadow -> Snapshot -> M Shadow)
    (g : Handler) (events : list Snapshot) :
  (forall sh s, on_g sh s = redirectM g (on_page sh s)) ->
  forall sh,
    xhr_dispatch on_g sh events = redirectM g (xhr_dispatch on_page sh events).
Proof.
  intros Hon. induction events as [|s rest IH]; intros sh; [reflexivity|].
  cbn [xhr_dispatch]. rewrite Hon.
  destruct (on_page sh s) as [t [sh'| e |]]; unfold redirectM at 1; cbn [fst snd].
  - rewrite IH. destruct (xhr_dispatch on_page sh' rest) as [t' r].
    unfold redirectM. cbn [fst snd]. rewrite redirect_app. reflexivity.
  - rewrite IH. destruct (xhr_dispatch on_page sh rest) as [t' r].
    unfold redirectM. cbn [fst snd].
    change (UnhandledRejection e :: t') with ([UnhandledRejection e] ++ t').
    rewrite !redirect_app. reflexivity.
  - reflexivity.
Qed.

Lemma reapply_headers_free (savedHeaders : list (string * Header))
    (this : XMLHttpRequestWithUrl) :
  handler_free (fst (reapply_headers savedHeaders this)).
Proof.
  destruct (reapply_headers_spec savedHeaders this) as (this' & -> & _).
  cbn [fst]. unfold handler_free. apply Forall_map, Forall_true. reflexivity.
Qed.

Lemma handler_free_bind {A B} (c : M A) (k : A -> M B) :
  handler_free (fst c) -> (forall a, handler_free (fst (k a))) ->
  handler_free (fst (bind c k)).
Proof.
  intros Hc Hk. destruct c as [t [a| |]]; cbn [bind fst] in *; try exact Hc.
  specialize (Hk a). destruct (k a) as [t' r]. cbn [fst] in *.
  apply handler_free_app; assumption.
Qed.

Lemma xhr_beforeSend_free (i : nat) (cfgs : list InjectConfig) (u : string)
    (this : XMLHttpRequestWithUrl) (body : JsVal) :
  handler_free (fst (xhr_beforeSend i cfgs u this body)).
Proof.
  revert i. induction cfgs as [|c rest IH]; intros i; [constructor|].
  cbn [xhr_beforeSend].
  destruct (rule_matches u (x_method this) c); [|apply IH].
  destruct (beforeSendCallback c) as [hook|]; [|constructor].
  apply handler_free_bind; [constructor|]. intros parsed.
  apply handler_free_bind; [repeat constructor|]. intros _.
  destruct (bs_url _); [|constructor].
  apply handler_free_bind; [repeat constructor|]. intros this2.
  apply handler_free_bind; [apply reapply_headers_free|]. intros this3. constructor.
Qed.

Lemma send_body_natural (configs : list InjectConfig)
    (resend : XMLHttpRequestWithUrl -> JsVal -> M unit) :
  natural resend -> natural (send_body configs resend).
Proof.
  intros Hnat x g body. unfold send_body.
  change (requestUrl_of (set_onreadystatechange x (Some g))) with (requestUrl_of x).
  change (requestUrl_of (set_onreadystatechange x (Some page_handler)))
    with (requestUrl_of x).
  rewrite !xhr_beforeSend_handler, !bind_mapM, redirectM_bind.
  pose proof (xhr_beforeSend_free 0 configs (requestUrl_of x) x body) as Hfree.
  destruct (xhr_beforeSend 0 configs (requestUrl_of x) x body) as [t0 r0].
  cbn [fst] in Hfree.
  unfold redirectM at 1. cbn [fst snd]. rewrite (redirect_handler_free g t0 Hfree).
  apply bind_ext. intros [this' body']. cbn [fst snd].
  rewrite redirectM_bind.
  change (request_of (set_onreadystatechange this' (Some g)) body')
    with (request_of this' body').
  change (request_of (set_onreadystatechange this' (Some page_handler)) body')
    with (request_of this' body').
  rewrite redirectM_emit_free by (repeat constructor).
  apply bind_ext. intros _.
  cbn [set_onreadystatechange x_onreadystatechange].
  apply xhr_dispatch_natural. intros sh s.
  apply (xhr_onreadystatechange_natural configs resend this' body' g sh s Hnat).
Qed.

(** The patched [send] is natural in the handler of its object, whatever
    the fuel. *)
Lemma hijackXHR_send_natural (fuel : nat) (configs : list InjectConfig) :
  natural (hijackXHR_send fuel configs).
Proof.
  induction fuel as [|n IH]; cbn [hijackXHR_send]; apply send_body_natural.
  - intros x g body. reflexivity.
  - exact IH.
Qed.

Lemma hijackXHR_open_new (m uri : option string) :
  hijackXHR_open new_XMLHttpRequest m uri
  = ([NativeOpen m uri], Ok (superseding_request m uri)).
Proof. reflexivity. Qed.

Lemma xhr_rule_events_free (i : nat) (c : InjectConfig) (d : JsVal)
    (info : IRequestInfo) :
  handler_free (xhr_rule_events i c d info).
Proof.
  unfold xhr_rule_events.
  destruct (preCallback c), (callback c), (lastCallback c); repeat constructor.
Qed.



End Naturality.

Lemma handler_views_app (t1 t2 : list Event) :
  handler_views (t1 ++ t2) = handler_views t1 ++ handler_views t2.
Proof. apply omap_app. Qed.

Lemma handler_views_free (t : list Event) : handler_free t -> handler_views t = [].
Proof.
  induction 1 as [|e t He _ IH]; [reflexivity|].
  unfold handler_views in *. cbn [omap list_omap]. rewrite He. exact IH.
Qed.




Section Superseded.
Context `{H : Host}.



End Superseded.


(* ===================================================================== *)
(** * Further properties of the code *)
(* ===================================================================== *)

(** ** Matcher *)

Lemma lower_ascii_idem (c : ascii) : lower_ascii (lower_ascii c) = lower_ascii c.
Proof. destruct c as [[] [] [] [] [] [] [] []]; vm_compute; reflexivity. Qed.

Lemma toLowerCase_idem (s : string) : toLowerCase (toLowerCase s) = toLowerCase s.
Proof.
  induction s as [|c s IH]; [reflexivity|].
  cbn [toLowerCase]. rewrite lower_ascii_idem, IH. reflexivity.
Qed.

(** X1. [isMethodEqual] (lines 338-340): a call without a method matches no
    rule; otherwise the comparison is symmetric and blind to the case of
    either side, so that a method always equals itself in any case. *)
Theorem isMethodEqual_ignores_case (m t : string) :
  isMethodEqual None t = false /\
  isMethodEqual (Some m) t = isMethodEqual (Some t) m /\
  isMethodEqual (Some (toLowerCase m)) t = isMethodEqual (Some m) t /\
  isMethodEqual (Some m) (toLowerCase t) = isMethodEqual (Some m) t /\
  isMethodEqual (Some m) (toLowerCase m) = true.
Proof.
  unfold isMethodEqual. rewrite !toLowerCase_idem.
  repeat split; try reflexivity.
  - apply String.eqb_sym.
  - apply String.eqb_refl.
Qed.

(** X2. [isTargetUrl] on a string target (lines 319-329): two candidate URLs
    that parse to the same host, protocol and path match the same targets,
    whatever their query strings and fragments, and match each other; and
    the test is symmetric in the candidate and the target. *)
Theorem isTargetUrl_ignores_query_and_fragment `{H : Host}
    (u1 u2 t : string) (a1 a2 : URL) :
  parse_URL u1 = Some a1 -> parse_URL u2 = Some a2 ->
  host a1 = host a2 -> protocol a1 = protocol a2 -> pathname a1 = pathname a2 ->
  isTargetUrl u1 (TString t) = isTargetUrl u2 (TString t) /\
  isTargetUrl u1 (TString u2) = true /\
  isTargetUrl u1 (TString t) = isTargetUrl t (TString u1).
Proof.
  intros H1 H2 Hh Hp Hn.
  unfold isTargetUrl, isTargetUrl_try, new_URL, and_then.
  rewrite H1, H2, Hh, Hp, Hn. repeat split.
  - rewrite !String.eqb_refl. reflexivity.
  - destruct (parse_URL t) as [b|]; [|reflexivity].
    rewrite (String.eqb_sym (host a2)), (String.eqb_sym (protocol a2)),
      (String.eqb_sym (pathname a2)). reflexivity.
Qed.

Lemma isTargetUrl_ignores_query_and_fragment_witness :
  isTargetUrl (H := ExampleHost.plain) "https://example.com/api/data?page=2"
    (TString "https://example.com/api/data#top") = true.
Proof.
  refine (proj1 (proj2 (isTargetUrl_ignores_query_and_fragment
            (H := ExampleHost.plain)
            "https://example.com/api/data?page=2" "https://example.com/api/data#top"
            "https://example.com/api/data" _ _ eq_refl eq_refl _ _ _)));
    reflexivity.
Defined.

(** ** Rule registry *)

Lemma existsb_app_l {A} (f : A -> bool) (l1 l2 : list A) :
  existsb f l1 = true -> existsb f (l1 ++ l2) = true.
Proof. intros Hl. rewrite existsb_app, Hl. reflexivity. Qed.

Lemma addOne_keeps_key (cfgs : list InjectConfig) (newCf c : InjectConfig) :
  existsb (fun cf => same_key cf c) cfgs = true ->
  existsb (fun cf => same_key cf c) (addOne cfgs newCf) = true.
Proof.
  intros Hc. destruct (addOne_shape cfgs newCf) as [[_ ->]|[_ ->]];
    [assumption | apply existsb_app_l; assumption].
Qed.

Lemma addOne_registers (cfgs : list InjectConfig) (newCf : InjectConfig) :
  existsb (fun cf => same_key cf newCf) (addOne cfgs newCf) = true.
Proof.
  destruct (addOne_shape cfgs newCf) as [[He ->]|[_ ->]]; [assumption|].
  rewrite existsb_app. cbn [existsb]. rewrite same_key_refl. cbn [orb].
  apply orb_true_r.
Qed.

Lemma fold_addOne_keeps_key (batch cfgs : list InjectConfig) (c : InjectConfig) :
  existsb (fun cf => same_key cf c) cfgs = true ->
  existsb (fun cf => same_key cf c) (fold_left addOne batch cfgs) = true.
Proof.
  revert cfgs. induction batch as [|b batch IH]; intros cfgs Hc; [assumption|].
  cbn [fold_left]. apply IH, addOne_keeps_key, Hc.
Qed.

Lemma fold_addOne_registers (batch cfgs : list InjectConfig) (c : InjectConfig) :
  In c batch ->
  existsb (fun cf => same_key cf c) (fold_left addOne batch cfgs) = true.
Proof.
  revert cfgs. induction batch as [|b batch IH]; intros cfgs Hin; [destruct Hin|].
  cbn [fold_left]. destruct Hin as [->|Hin].
  - apply fold_addOne_keeps_key, addOne_registers.
  - apply IH, Hin.
Qed.

Lemma fold_addOne_known (batch cfgs : list InjectConfig) :
  (forall c, In c batch -> existsb (fun cf => same_key cf c) cfgs = true) ->
  fold_left addOne batch cfgs = cfgs.
Proof.
  induction batch as [|b batch IH]; intros Hall; [reflexivity|].
  cbn [fold_left]. unfold addOne at 2.
  rewrite (Hall b (or_introl eq_refl)). cbn [negb].
  apply IH. intros c Hc. apply Hall. right. exact Hc.
Qed.

(** X3. [addConfig] (lines 41-47): a rule whose (url, method) pair is already
    registered is dropped, so the hooks registered first stay in force: a
    batch of known keys leaves the registry as it was. *)
Theorem addConfig_first_registration_wins
    (cfgs : list InjectConfig) (options : Options) :
  (forall c, In c (toArray options) ->
             existsb (fun cf => same_key cf c) cfgs = true) ->
  addConfig cfgs options = cfgs.
Proof. apply fold_addOne_known. Qed.

(** X4. [addConfig] (lines 41-47) is idempotent: registering the same rule
    or batch a second time leaves the registry as the first registration
    left it. *)
Theorem addConfig_idempotent (cfgs : list InjectConfig) (options : Options) :
  addConfig (addConfig cfgs options) options = addConfig cfgs options.
Proof.
  apply fold_addOne_known. intros c Hc. apply fold_addOne_registers, Hc.
Qed.

(** X5. The duplicate test of [addConfig] compares methods as written (line
    44), the matcher compares them without case (line 339): two rules on
    the same target whose methods differ only in case are both registered,
    and both match exactly the same calls. *)
Theorem method_case_defeats_duplicate_test `{H : Host} (c1 c2 : InjectConfig) :
  url c1 = url c2 ->
  method c1 <> method c2 ->
  toLowerCase (method c1) = toLowerCase (method c2) ->
  addConfig [c1] (Single c2) = [c1; c2] /\
  forall u m, rule_matches u m c1 = rule_matches u m c2.
Proof.
  intros Hu Hm Hl. split.
  - unfold addConfig, addOne, same_key. cbn [toArray fold_left existsb].
    apply String.eqb_neq in Hm. rewrite Hm, andb_false_r. reflexivity.
  - intros u m. unfold rule_matches, isMethodEqual. rewrite Hu, Hl. reflexivity.
Qed.

Lemma method_case_defeats_duplicate_test_witness :
  addConfig [Scenario.bare (TString Scenario.data_url) "GET"]
    (Single (Scenario.bare (TString Scenario.data_url) "get"))
  = [Scenario.bare (TString Scenario.data_url) "GET";
     Scenario.bare (TString Scenario.data_url) "get"].
Proof.
  refine (proj1 (method_case_defeats_duplicate_test (H := ExampleHost.plain)
            (Scenario.bare (TString Scenario.data_url) "GET")
            (Scenario.bare (TString Scenario.data_url) "get") eq_refl _ eq_refl)).
  discriminate.
Defined.

(** X6. A pattern target is compared by identity (line 44, [===] on objects):
    two rules whose patterns are distinct objects are both registered even
    when the patterns accept the same URLs, and then both match the same
    calls. *)
Theorem equal_patterns_are_distinct_keys `{H : Host} (c1 c2 : InjectConfig)
    (i j : nat) (test : string -> bool) :
  url c1 = TRegExp i test -> url c2 = TRegExp j test -> i <> j ->
  method c1 = method c2 ->
  addConfig [c1] (Single c2) = [c1; c2] /\
  forall u m, rule_matches u m c1 = rule_matches u m c2.
Proof.
  intros H1 H2 Hij Hm. split.
  - unfold addConfig, addOne, same_key. cbn [toArray fold_left existsb].
    rewrite H1, H2. cbn [target_eqb]. apply Nat.eqb_neq in Hij. rewrite Hij.
    reflexivity.
  - intros u m. unfold rule_matches, isTargetUrl. rewrite H1, H2, Hm. reflexivity.
Qed.

Lemma equal_patterns_are_distinct_keys_witness :
  addConfig [Scenario.bare (TRegExp 1 (String.prefix "https://example.com/api/")) "GET"]
    (Single (Scenario.bare (TRegExp 2 (String.prefix "https://example.com/api/")) "GET"))
  = [Scenario.bare (TRegExp 1 (String.prefix "https://example.com/api/")) "GET";
     Scenario.bare (TRegExp 2 (String.prefix "https://example.com/api/")) "GET"].
Proof.
  refine (proj1 (equal_patterns_are_distinct_keys (H := ExampleHost.plain)
            (Scenario.bare (TRegExp 1 (String.prefix "https://example.com/api/")) "GET")
            (Scenario.bare (TRegExp 2 (String.prefix "https://example.com/api/")) "GET")
            1 2 (String.prefix "https://example.com/api/") eq_refl eq_refl _ eq_refl)).
  discriminate.
Defined.

(** ** Lifecycle: the realms a page can reach *)

Lemma construct_pristine (options : Options) :
  construct options pristine
  = (0%nat,
     mkRealm (Some (HijackedBy 0)) (Some (HijackedBy 0)) (Some (HijackedBy 0)) true
       (Some 0%nat)
       [mkInterceptor (toArray options) (Some NativeFn) (Some NativeFn) (Some NativeFn)]
       []).
Proof. reflexivity. Qed.

Lemma one_session_construct (options : Options) (g : Realm) :
  one_session g ->
  fst (construct options g) = 0%nat /\
  one_session (snd (construct options g)) /\
  entry_points (snd (construct options g)) = entry_points g.
Proof.
  intros (Hflag & Hinst & Hcons & [cfgs Hobj] & Hentry).
  rewrite (construct_active_instance options g 0 Hflag Hinst). cbn [fst snd].
  split; [reflexivity|]. split; [|reflexivity].
  unfold one_session.
  cbn [isHijacked INSTANCE console objects entry_points XMLHttpRequest_open
       XMLHttpRequest_send window_fetch].
  repeat split; try assumption.
  exists (addConfig cfgs options).
  unfold addConfig_at. rewrite list_lookup_alter_eq.
  rewrite (lookup_app_l_Some _ _ _ _ Hobj). reflexivity.
Qed.

Lemma one_session_restore (g : Realm) :
  one_session g ->
  one_session (restore 0 g) /\ entry_points (restore 0 g) = natives.
Proof.
  intros (Hflag & Hinst & Hcons & [cfgs Hobj] & Hentry).
  unfold restore. rewrite Hobj.
  cbn [originalXHRopen originalXHRsend originalFetch]. split; [|reflexivity].
  unfold one_session.
  cbn [isHijacked INSTANCE console objects entry_points XMLHttpRequest_open
       XMLHttpRequest_send window_fetch].
  repeat split; try assumption; [exists cfgs; assumption | right; reflexivity].
Qed.

Lemma held_zero (held : list nat) (k i : nat) :
  Forall (eq 0%nat) held -> held !! k = Some i -> i = 0%nat.
Proof.
  intros Hall Hk. rewrite List.Forall_forall in Hall.
  symmetry. apply Hall. eapply list_elem_of_In, list_elem_of_lookup_2, Hk.
Qed.

Lemma perform_reachable (held : list nat) (g : Realm) (a : PageAction) :
  Forall (eq 0%nat) held ->
  (held = [] /\ g = pristine) \/ (held <> [] /\ one_session g) ->
  Forall (eq 0%nat) (fst (perform (held, g) a)) /\
  ((fst (perform (held, g) a) = [] /\ snd (perform (held, g) a) = pristine) \/
   (fst (perform (held, g) a) <> [] /\ one_session (snd (perform (held, g) a)))).
Proof.
  intros Hall Hcase. destruct a as [options|k]; cbn [perform].
  - destruct Hcase as [[-> ->]|[Hne Hone]].
    + rewrite construct_pristine. cbn [fst snd app]. split.
      * repeat constructor.
      * right. split; [discriminate|].
        unfold one_session. cbn. repeat split; eauto.
    + destruct (one_session_construct options g Hone) as (Hr & Hone' & _).
      destruct (construct options g) as [r g'] eqn:Hc. cbn [fst snd] in *. subst r.
      split.
      * apply Forall_app. split; [assumption | repeat constructor].
      * right. split; [|assumption]. destruct held; discriminate.
  - destruct (held !! k) as [i|] eqn:Hk; cbn [fst snd].
    + split; [assumption|]. right.
      rewrite (held_zero held k i Hall Hk).
      destruct Hcase as [[-> _]|[Hne Hone]]; [discriminate Hk|].
      split; [assumption | apply one_session_restore, Hone].
    + split; assumption.
Qed.

Lemma run_page_reachable (actions : list PageAction) :
  forall held g,
    Forall (eq 0%nat) held ->
    (held = [] /\ g = pristine) \/ (held <> [] /\ one_session g) ->
    Forall (eq 0%nat) (fst (run_page (held, g) actions)) /\
    ((fst (run_page (held, g) actions) = [] /\
      snd (run_page (held, g) actions) = pristine) \/
     (fst (run_page (held, g) actions) <> [] /\
      one_session (snd (run_page (held, g) actions)))).
Proof.
  induction actions as [|a actions IH]; intros held g Hall Hcase.
  - split; assumption.
  - unfold run_page. cbn [fold_left].
    destruct (perform_reachable held g a Hall Hcase) as [Hall' Hcase'].
    destruct (perform (held, g) a) as [held' g']. apply IH; assumption.
Qed.

(** X7. Constructor and [restore] (lines 21-38, 289-293), over every sequence
    of constructions and [restore] calls a page can make from a realm in
    which nothing was patched: every construction evaluates to the same
    object, the first one allocated; the flag, once set, always comes with
    a non-empty [INSTANCE]; the warning of line 27 is never logged; and
    the entry points only ever hold the wrappers of that one session or
    the browser's own functions. *)
Theorem single_session_from_pristine (actions : list PageAction) :
  let held := fst (run_page ([], pristine) actions) in
  let g := snd (run_page ([], pristine) actions) in
  Forall (eq 0%nat) held /\
  console g = [] /\
  (held = [] -> g = pristine) /\
  (held <> [] ->
   isHijacked g = true /\ INSTANCE g = Some 0%nat /\
   is_Some (registry g 0) /\
   (entry_points g = wrappers 0 \/ entry_points g = natives)).
Proof.
  cbv zeta.
  destruct (run_page_reachable actions [] pristine (List.Forall_nil _)
              (or_introl (conj eq_refl eq_refl))) as [Hall Hcase].
  split; [assumption|].
  destruct Hcase as [[He Hg]|[Hne Hone]].
  - rewrite Hg. split; [reflexivity|]. split; [reflexivity|].
    intros Hne. contradiction.
  - destruct Hone as (Hflag & Hinst & Hcons & [cfgs Hobj] & Hentry).
    split; [assumption|]. split; [intros He; contradiction|]. intros _.
    repeat split; try assumption.
    unfold registry. rewrite Hobj. eexists. reflexivity.
Qed.

Lemma run_page_restored (actions : list PageAction) :
  forall held g,
    Forall (eq 0%nat) held -> one_session g -> entry_points g = natives ->
    entry_points (snd (run_page (held, g) actions)) = natives.
Proof.
  induction actions as [|a actions IH]; intros held g Hall Hone Hentry;
    [exact Hentry|].
  unfold run_page. cbn [fold_left]. destruct a as [options|k]; cbn [perform].
  - destruct (one_session_construct options g Hone) as (Hr & Hone' & Hsame).
    destruct (construct options g) as [r g'] eqn:Hc. cbn [fst snd] in *. subst r.
    apply IH.
    + apply Forall_app. split; [assumption | repeat constructor].
    + assumption.
    + rewrite Hsame. exact Hentry.
  - destruct (held !! k) as [i|] eqn:Hk.
    + rewrite (held_zero held k i Hall Hk).
      apply IH; [assumption | apply one_session_restore, Hone
                | apply one_session_restore, Hone].
    + apply IH; assumption.
Qed.

(** X8. [restore] is final: once a page that started from an unpatched realm
    has called [restore] on a reference it holds, the three entry points
    are the browser's own functions and stay so, whatever constructions and
    [restore] calls follow, since the flag of line 36 is never cleared. *)
Theorem restore_is_final (before after : list PageAction) (k : nat) :
  (k < length (fst (run_page ([], pristine) before)))%nat ->
  entry_points (snd (run_page ([], pristine) (before ++ Restore k :: after)))
  = natives.
Proof.
  intros Hk. unfold run_page. rewrite fold_left_app. cbn [fold_left].
  fold (run_page ([], pristine) before).
  destruct (run_page_reachable before [] pristine (List.Forall_nil _)
              (or_introl (conj eq_refl eq_refl))) as [Hall Hcase].
  fold (run_page ([], pristine) before) in Hk.
  destruct (run_page ([], pristine) before) as [held g] eqn:Hrun.
  cbn [fst snd] in *.
  destruct (lookup_lt_is_Some_2 held k Hk) as [i Hi].
  cbn [perform]. rewrite Hi. rewrite (held_zero held k i Hall Hi).
  destruct Hcase as [[-> _]|[Hne Hone]]; [discriminate Hi|].
  apply (run_page_restored after held (restore 0 g) Hall);
    apply one_session_restore, Hone.
Qed.

Lemma restore_is_final_witness :
  entry_points
    (snd (run_page ([], pristine)
            ([New (Single Scenario.data_rule)]
             ++ Restore 0 :: [New (Single Scenario.other_rule)])))
  = natives.
Proof.
  apply (restore_is_final [New (Single Scenario.data_rule)]
           [New (Single Scenario.other_rule)] 0).
  vm_compute. lia.
Defined.

Lemma single_session_from_pristine_witness :
  Forall (eq 0%nat)
    (fst (run_page ([], pristine)
            [New (Single Scenario.data_rule); Restore 0;
             New (Single Scenario.other_rule)])) /\
  console
    (snd (run_page ([], pristine)
            [New (Single Scenario.data_rule); Restore 0;
             New (Single Scenario.other_rule)])) = [].
Proof.
  destruct (single_session_from_pristine
              [New (Single Scenario.data_rule); Restore 0;
               New (Single Scenario.other_rule)]) as (Hheld & Hconsole & _).
  split; [exact Hheld | exact Hconsole].
Defined.

Lemma addConfig_first_registration_wins_witness :
  addConfig [Scenario.data_rule] (Batch [Scenario.hooked_rule; Scenario.ok_rule])
  = [Scenario.data_rule].
Proof.
  apply (addConfig_first_registration_wins [Scenario.data_rule]
           (Batch [Scenario.hooked_rule; Scenario.ok_rule])).
  intros c [<-|[<-|[]]]; reflexivity.
Defined.

(** ** The pre-send stage *)

Lemma beforeSend_rules_app (t1 t2 : list Event) :
  beforeSend_rules (t1 ++ t2) = beforeSend_rules t1 ++ beforeSend_rules t2.
Proof. apply omap_app. Qed.


Lemma header_events_quiet (hs : list Header) :
  beforeSend_rules (map (fun h => NativeSetRequestHeader (h_name h) (h_value h)) hs) = [] /\
  sent_requests (map (fun h => NativeSetRequestHeader (h_name h) (h_value h)) hs) = [] /\
  handler_free (map (fun h => NativeSetRequestHeader (h_name h) (h_value h)) hs).
Proof.
  induction hs as [|h hs (IH1 & IH2 & IH3)].
  - repeat split. constructor.
  - repeat split; [exact IH1 | exact IH2 | constructor; [reflexivity | exact IH3]].
Qed.

Section PreSendStage.
Context `{H : Host}.

Lemma xhr_beforeSend_none (cfgs : list InjectConfig) (u : string)
    (this : XMLHttpRequestWithUrl) (body : JsVal) :
  Forall (fun c => rule_matches u (x_method this) c = false) cfgs ->
  forall i, xhr_beforeSend i cfgs u this body = ret (this, body).
Proof.
  induction 1 as [|c cfgs Hc _ IH]; intros i; [reflexivity|].
  cbn [xhr_beforeSend]. rewrite Hc. apply IH.
Qed.

(** One turn of the pre-send loop on a matching rule. *)
Lemma xhr_beforeSend_at_match (i : nat) (c : InjectConfig) (rest : list InjectConfig)
    (u : string) (this : XMLHttpRequestWithUrl) (body : JsVal) :
  rule_matches u (x_method this) c = true ->
  xhr_beforeSend i (c :: rest) u this body
  = match beforeSendCallback c with
    | None => ret (this, body)
    | Some hook =>
        match parse_URL u with
        | None => ([], Throw (TypeError_InvalidURL u))
        | Some a =>
            let info := mkRequestInfo a body in
            let result := match hook info with
              | Some r => r
              | None => mkBeforeSendResult None JUndefined
              end in
            let body' := if truthy (bs_data result) then bs_data result else body in
            match bs_url result with
            | None => ([BeforeSendCalled i info], Ok (this, body'))
            | Some newUrl =>
                let reopened :=
                  mkXhr (Some (href newUrl)) (x_method this) (x_requestHeaders this) []
                    (x_responseType this) (x_onreadystatechange this) in
                let again :=
                  reapply_headers
                    match x_requestHeaders this with Some hs => hs | None => [] end
                    reopened in
                (BeforeSendCalled i info
                   :: NativeOpen (x_method this) (Some (href newUrl)) :: fst again,
                 match snd again with
                 | Ok this' => Ok (this', body')
                 | Throw e => Throw e
                 | OutOfFuel => OutOfFuel
                 end)
            end
        end
    end.
Proof.
  intros Hm. cbn [xhr_beforeSend]. rewrite Hm.
  destruct (beforeSendCallback c) as [hook|]; [|reflexivity].
  unfold new_URL. destruct (parse_URL u) as [a|]; [|reflexivity].
  cbv zeta. cbn [lift bind emit ret app].
  destruct (hook (mkRequestInfo a body)) as [r|]; cbn [bs_url bs_data].
  - destruct (bs_url r) as [newUrl|]; [|reflexivity].
    unfold native_open, URL_toString.
    cbn [bind emit ret app x_uri x_method x_requestHeaders x_nativeHeaders
         x_responseType x_onreadystatechange].
    destruct (x_requestHeaders this) as [hs|];
      match goal with
      | |- context [reapply_headers ?s ?x] =>
          destruct (reapply_headers s x) as [t [x'| |]]
      end; cbn [bind ret fst snd app]; rewrite ?app_nil_r; reflexivity.
  - reflexivity.
Qed.

(** X9. The pre-send loop of the patched [send] (lines 101-126) invokes at most
    one hook, that of the first rule matching the request, and it stops at
    that rule even when the rule has no pre-send hook: the hooks of later
    matching rules are never invoked. *)
Theorem xhr_presend_only_first_match
    (pre post : list InjectConfig) (c : InjectConfig)
    (this : XMLHttpRequestWithUrl) (body : JsVal) :
  Forall (fun c' => rule_matches (requestUrl_of this) (x_method this) c' = false) pre ->
  rule_matches (requestUrl_of this) (x_method this) c = true ->
  let stage := xhr_beforeSend 0 (pre ++ c :: post) (requestUrl_of this) this body in
  (length (beforeSend_rules (trace_of stage)) <= 1)%nat /\
  Forall (eq (length pre)) (beforeSend_rules (trace_of stage)) /\
  (beforeSendCallback c = None -> stage = ret (this, body)).
Proof.
  intros Hpre Hm. cbv zeta. rewrite (xhr_beforeSend_skip 0 pre (c :: post) _ this body Hpre).
  rewrite xhr_beforeSend_at_match by exact Hm. cbn [Nat.add]. unfold trace_of.
  destruct (beforeSendCallback c) as [hook|].
  - destruct (parse_URL (requestUrl_of this)) as [a|].
    + cbv zeta.
      destruct (bs_url match hook (mkRequestInfo a body) with
                       | Some r => r
                       | None => mkBeforeSendResult None JUndefined
                       end) as [newUrl|].
      * match goal with
        | |- context [reapply_headers ?s ?x] =>
            destruct (reapply_headers_spec s x) as (x' & -> & _)
        end.
        cbn [fst beforeSend_rules omap list_omap beforeSend_rule].
        match goal with
        | |- context [kept_headers ?s] =>
            fold (beforeSend_rules
                    (map (fun h => NativeSetRequestHeader (h_name h) (h_value h))
                       (kept_headers s)))
        end.
        rewrite (proj1 (header_events_quiet _)).
        repeat split; [cbn; lia | repeat constructor | discriminate].
      * cbn. repeat split; [lia | repeat constructor | discriminate].
    + cbn. repeat split; [lia | constructor | discriminate].
  - cbn. repeat split; [lia | constructor].
Qed.

End PreSendStage.

Section PreSendResult.
Context `{H : Host}.

Lemma xhr_beforeSend_result
    (cfgs : list InjectConfig) (u : string) (this this' : XMLHttpRequestWithUrl)
    (body body' : JsVal) (i : nat) (t : list Event) :
  xhr_beforeSend i cfgs u this body = (t, Ok (this', body')) ->
  x_method this' = x_method this /\
  x_responseType this' = x_responseType this /\
  x_onreadystatechange this' = x_onreadystatechange this /\
  (body' = body \/ truthy body' = true) /\
  ((x_uri this' = x_uri this /\ x_nativeHeaders this' = x_nativeHeaders this) \/
   x_nativeHeaders this'
   = kept_headers match x_requestHeaders this with Some hs => hs | None => [] end) /\
  sent_requests t = [] /\
  handler_free t.
Proof.
  revert i. induction cfgs as [|c cfgs IH]; intros i Heq.
  - cbn in Heq. injection Heq as <- <- <-.
    repeat split; auto. constructor.
  - destruct (rule_matches u (x_method this) c) eqn:Hm.
    + rewrite (xhr_beforeSend_at_match i c cfgs u this body Hm) in Heq.
      destruct (beforeSendCallback c) as [hook|].
      * destruct (parse_URL u) as [a|]; [|discriminate]. cbv zeta in Heq.
        set (result := match hook (mkRequestInfo a body) with
                       | Some r => r
                       | None => mkBeforeSendResult None JUndefined
                       end) in *.
        assert (Hbody : forall b, (if truthy (bs_data result) then bs_data result else body) = b ->
                                  b = body \/ truthy b = true).
        { intros b <-. destruct (truthy (bs_data result)) eqn:Ht; auto. }
        destruct (bs_url result) as [newUrl|].
        -- match type of Heq with
           | context [reapply_headers ?s ?x] =>
               destruct (reapply_headers_spec s x) as (x' & Hre & Hnat & _ & Hmeth & Hty & Hh)
           end.
           rewrite Hre in Heq. cbn [fst snd] in Heq.
           injection Heq as <- <- Hb.
           cbn [x_method x_responseType x_onreadystatechange x_nativeHeaders app]
             in Hmeth, Hty, Hh, Hnat.
           repeat split; auto.
           ++ cbn [sent_requests omap list_omap sent_request].
              match goal with
              | |- context [kept_headers ?s] =>
                  fold (sent_requests
                          (map (fun h => NativeSetRequestHeader (h_name h) (h_value h))
                             (kept_headers s)))
              end.
              apply header_events_quiet.
           ++ constructor; [reflexivity|]. constructor; [reflexivity|].
              apply header_events_quiet.
        -- injection Heq as <- <- Hb.
           repeat split; auto. repeat constructor.
      * cbn in Heq. injection Heq as <- <- <-.
        repeat split; auto. constructor.
    + cbn [xhr_beforeSend] in Heq. rewrite Hm in Heq. apply (IH (S i) Heq).
Qed.

(** X10. What the pre-send loop of the patched [send] can change (lines
    101-126): the URL, the header list (to the captured headers it applies
    again) and the body, and the body only to a truthy value.  The method,
    the [responseType] and the page's handler are kept; nothing is sent and
    the handler is not called. *)
Theorem xhr_presend_changes_only_url_headers_body
    (cfgs : list InjectConfig) (u : string) (this this' : XMLHttpRequestWithUrl)
    (body body' : JsVal) (i : nat) (t : list Event) :
  xhr_beforeSend i cfgs u this body = (t, Ok (this', body')) ->
  x_method this' = x_method this /\
  x_responseType this' = x_responseType this /\
  x_onreadystatechange this' = x_onreadystatechange this /\
  (body' = body \/ truthy body' = true) /\
  ((x_uri this' = x_uri this /\ x_nativeHeaders this' = x_nativeHeaders this) \/
   x_nativeHeaders this'
   = kept_headers match x_requestHeaders this with Some hs => hs | None => [] end) /\
  sent_requests t = [] /\
  handler_free t.
Proof.
  intros Heq.
  destruct (xhr_beforeSend_result cfgs u this this' body body' i t Heq)
    as (Hm & Hty & Hh & Hb & Hn & Hs & Hf).
  repeat split; assumption.
Qed.

(** X11. A request whose URL the [URL] constructor rejects (a relative URL
    without a leading slash, say) and that a pattern rule with a pre-send
    hook matches first: line 105 throws, the promise [send] returns is
    rejected, and the request is never handed to the browser. *)
Theorem xhr_send_throws_before_sending
    (fuel : nat) (pre post : list InjectConfig) (c : InjectConfig)
    (this : XMLHttpRequestWithUrl) (body : JsVal) :
  Forall (fun c' => rule_matches (requestUrl_of this) (x_method this) c' = false) pre ->
  rule_matches (requestUrl_of this) (x_method this) c = true ->
  is_Some (beforeSendCallback c) ->
  parse_URL (requestUrl_of this) = None ->
  hijackXHR_send fuel (pre ++ c :: post) this body
  = ([], Throw (TypeError_InvalidURL (requestUrl_of this))).
Proof.
  intros Hpre Hm [hook Hhook] Hparse.
  rewrite hijackXHR_send_unfold. unfold send_body.
  rewrite (xhr_beforeSend_skip 0 pre (c :: post) _ this body Hpre).
  rewrite xhr_beforeSend_at_match by exact Hm. rewrite Hhook, Hparse. reflexivity.
Qed.

Lemma fetch_beforeSend_skip (i : nat) (pre rest : list InjectConfig) (u m : string)
    (input : FetchInput) (init : option RequestInit) :
  Forall (fun c => rule_matches u (Some m) c = false) pre ->
  fetch_beforeSend i (pre ++ rest) u m input init
  = fetch_beforeSend (i + length pre) rest u m input init.
Proof.
  intros Hpre. revert i. induction Hpre as [|c pre Hc _ IH]; intros i.
  - cbn [app length]. rewrite Nat.add_0_r. reflexivity.
  - cbn [app fetch_beforeSend length]. rewrite Hc, IH. f_equal. lia.
Qed.

(** One turn of the pre-send loop of the patched [fetch] on a matching
    rule. *)
Lemma fetch_beforeSend_at_match (i : nat) (c : InjectConfig) (rest : list InjectConfig)
    (u m : string) (input : FetchInput) (init : option RequestInit) :
  rule_matches u (Some m) c = true ->
  fetch_beforeSend i (c :: rest) u m input init
  = match beforeSendCallback c with
    | None => ret (input, init)
    | Some hook =>
        match genUrl u with
        | Ok a =>
            let info := mkRequestInfo a (init_body_of init) in
            ([BeforeSendCalled i info],
             Ok match hook info with
                | Some result =>
                    (match bs_url result with
                     | Some newUrl => InputString (href newUrl)
                     | None => input
                     end,
                     if truthy (bs_data result)
                     then Some (with_body init (bs_data result))
                     else init)
                | None => (input, init)
                end)
        | Throw e => ([], Throw e)
        | OutOfFuel => ([], OutOfFuel)
        end
    end.
Proof.
  intros Hm. cbn [fetch_beforeSend]. rewrite Hm.
  destruct (beforeSendCallback c) as [hook|]; [|reflexivity].
  destruct (genUrl u) as [a|e|]; [|reflexivity|reflexivity].
  cbn [lift bind emit ret app].
  destruct (hook (mkRequestInfo a (init_body_of init))) as [r|]; reflexivity.
Qed.

(** X12. The pre-send loop of the patched [fetch] (lines 221-240) invokes
    at most one hook, that of the first rule matching the request, and
    stops at that rule even when it has no pre-send hook: the hooks of
    later matching rules are never invoked. *)
Theorem fetch_presend_only_first_match
    (pre post : list InjectConfig) (c : InjectConfig)
    (input : FetchInput) (init : option RequestInit) :
  let u := input_url input in
  let m := fetch_method init in
  Forall (fun c' => rule_matches u (Some m) c' = false) pre ->
  rule_matches u (Some m) c = true ->
  let stage := fetch_beforeSend 0 (pre ++ c :: post) u m input init in
  (length (beforeSend_rules (trace_of stage)) <= 1)%nat /\
  Forall (eq (length pre)) (beforeSend_rules (trace_of stage)) /\
  (beforeSendCallback c = None -> stage = ret (input, init)).
Proof.
  cbv zeta. intros Hpre Hm.
  rewrite (fetch_beforeSend_skip 0 pre (c :: post) _ _ input init Hpre).
  rewrite fetch_beforeSend_at_match by exact Hm. cbn [Nat.add]. unfold trace_of.
  destruct (beforeSendCallback c) as [hook|].
  - destruct (genUrl (input_url input)) as [a|e|]; cbn;
      (repeat split; [lia | repeat constructor | discriminate]).
  - cbn. repeat split; [lia | constructor].
Qed.

(** X13. What the browser's [fetch] is given after a pre-send hook ran (lines
    228-236, 242): the input is replaced by the text of the returned URL,
    whatever kind of input the page passed; the body is replaced only by a
    truthy value, and then the method and the other fields of [init] are
    kept. *)
Theorem fetch_presend_override
    (pre post : list InjectConfig) (c : InjectConfig)
    (hook : IRequestInfo -> option BeforeSendCallBackResult)
    (input : FetchInput) (init : option RequestInit) (a : URL)
    (result : BeforeSendCallBackResult) :
  let u := input_url input in
  let m := fetch_method init in
  let info := mkRequestInfo a (init_body_of init) in
  Forall (fun c' => rule_matches u (Some m) c' = false) pre ->
  rule_matches u (Some m) c = true ->
  beforeSendCallback c = Some hook ->
  genUrl u = Ok a ->
  hook info = Some result ->
  let input' := match bs_url result with
                | Some newUrl => InputString (href newUrl)
                | None => input
                end in
  let init' := if truthy (bs_data result)
               then Some (with_body init (bs_data result))
               else init in
  (exists after,
     trace_of (hijackFetch (pre ++ c :: post) input init)
     = BeforeSendCalled (length pre) info :: NativeFetch input' init' :: after) /\
  (truthy (bs_data result) = true ->
   exists i', init' = Some i' /\
     init_body i' = bs_data result /\
     init_method i' = match init with Some i0 => init_method i0 | None => None end /\
     init_rest i' = match init with Some i0 => init_rest i0 | None => [] end /\
     fetch_method init' = fetch_method init).
Proof.
  cbv zeta. intros Hpre Hm Hhook Hgen Hres. split.
  - unfold trace_of, hijackFetch.
    rewrite (fetch_beforeSend_skip 0 pre (c :: post) _ _ input init Hpre).
    rewrite fetch_beforeSend_at_match by exact Hm.
    rewrite Hhook, Hgen. cbv zeta. rewrite Hres. cbn [Nat.add].
    cbn [bind emit lift app fst].
    match goal with
    | |- context [fetch_network ?x ?y] => destruct (fetch_network x y) as [r|]
    end.
    + cbn [bind app].
      match goal with
      | |- context [fetch_response ?i ?cs ?mm ?ii ?rr] =>
          destruct (fetch_response i cs mm ii rr) as [t res]
      end.
      cbn [fst app]. eexists. reflexivity.
    + eexists. reflexivity.
  - intros Ht. rewrite Ht. eexists. split; [reflexivity|].
    destruct init as [i0|]; cbn [with_body init_body init_method init_rest fetch_method];
      repeat split; reflexivity.
Qed.

(** X14. A [fetch] whose URL the [URL] constructor rejects even after
    [genUrl] (a relative URL without a leading slash) and that a pattern
    rule with a pre-send hook matches first: line 225 throws, the promise
    is rejected, and the browser's [fetch] is never called. *)
Theorem fetch_rejects_before_sending
    (pre post : list InjectConfig) (c : InjectConfig)
    (input : FetchInput) (init : option RequestInit) (e : Error) :
  Forall (fun c' => rule_matches (input_url input) (Some (fetch_method init)) c' = false)
    pre ->
  rule_matches (input_url input) (Some (fetch_method init)) c = true ->
  is_Some (beforeSendCallback c) ->
  genUrl (input_url input) = Throw e ->
  hijackFetch (pre ++ c :: post) input init = ([], Throw e).
Proof.
  intros Hpre Hm [hook Hhook] Hgen. unfold hijackFetch.
  rewrite (fetch_beforeSend_skip 0 pre (c :: post) _ _ input init Hpre).
  rewrite fetch_beforeSend_at_match by exact Hm. rewrite Hhook, Hgen. reflexivity.
Qed.

End PreSendResult.

Lemma xhr_presend_only_first_match_witness :
  xhr_beforeSend (H := ExampleHost.plain) 0
    ([Scenario.other_rule] ++ Scenario.data_rule :: [Scenario.rewriting_rule])
    (requestUrl_of (H := ExampleHost.plain) (Scenario.opened Scenario.data_url))
    (Scenario.opened Scenario.data_url) JNull
  = ret (Scenario.opened Scenario.data_url, JNull).
Proof.
  refine (proj2 (proj2 (xhr_presend_only_first_match (H := ExampleHost.plain)
            [Scenario.other_rule] [Scenario.rewriting_rule] Scenario.data_rule
            (Scenario.opened Scenario.data_url) JNull _ _)) eq_refl).
  - repeat constructor.
  - reflexivity.
Defined.

Lemma xhr_presend_changes_only_url_headers_body_witness :
  exists t this' body',
    xhr_beforeSend (H := ExampleHost.plain) 0 [Scenario.moving_rule]
      Scenario.data_url Scenario.with_headers (JStr "payload") = (t, Ok (this', body')) /\
    x_method this' = Some "POST" /\ sent_requests t = [].
Proof.
  eexists _, _, _.
  match goal with |- ?E /\ _ => assert (He : E) by reflexivity end.
  split; [exact He|].
  destruct (xhr_presend_changes_only_url_headers_body (H := ExampleHost.plain)
              _ _ _ _ _ _ _ _ He) as (Hm & _ & _ & _ & _ & Hs & _).
  split; [exact Hm | exact Hs].
Defined.

Lemma xhr_send_throws_before_sending_witness :
  hijackXHR_send (H := ExampleHost.plain) 0
    ([Scenario.data_rule] ++ Scenario.pattern_presend_rule :: [])
    (Scenario.opened Scenario.relative_url) JNull
  = ([], Throw (TypeError_InvalidURL Scenario.relative_url)).
Proof.
  apply (xhr_send_throws_before_sending (H := ExampleHost.plain) 0
           [Scenario.data_rule] [] Scenario.pattern_presend_rule
           (Scenario.opened Scenario.relative_url) JNull).
  - repeat constructor.
  - reflexivity.
  - eexists. reflexivity.
  - reflexivity.
Defined.

Lemma fetch_presend_only_first_match_witness :
  fetch_beforeSend (H := ExampleHost.plain) 0
    ([Scenario.other_rule] ++ Scenario.data_rule :: [Scenario.rewriting_rule])
    Scenario.data_url "GET" (InputString Scenario.data_url) None
  = ret (InputString Scenario.data_url, None).
Proof.
  refine (proj2 (proj2 (fetch_presend_only_first_match (H := ExampleHost.plain)
            [Scenario.other_rule] [Scenario.rewriting_rule] Scenario.data_rule
            (InputString Scenario.data_url) None _ _)) eq_refl).
  - repeat constructor.
  - reflexivity.
Defined.

Lemma fetch_presend_override_witness :
  exists after,
    trace_of (hijackFetch (H := Scenario.hello_host)
                ([Scenario.other_rule] ++ Scenario.rewriting_rule :: [])
                (InputRequest Scenario.data_url) None)
    = BeforeSendCalled 1 (mkRequestInfo Scenario.data_URL JUndefined)
        :: NativeFetch (InputString "https://example.com/api/v2")
             (Some (mkInit None (JStr "patched") []))
        :: after.
Proof.
  refine (proj1 (fetch_presend_override (H := Scenario.hello_host)
            [Scenario.other_rule] [] Scenario.rewriting_rule _
            (InputRequest Scenario.data_url) None Scenario.data_URL _
            _ _ eq_refl _ eq_refl)).
  - repeat constructor.
  - reflexivity.
  - reflexivity.
Defined.

Lemma fetch_rejects_before_sending_witness :
  hijackFetch (H := ExampleHost.plain)
    ([Scenario.data_rule] ++ Scenario.pattern_presend_rule :: [])
    (InputString Scenario.relative_url) None
  = ([], Throw (TypeError_InvalidURL Scenario.relative_url)).
Proof.
  apply (fetch_rejects_before_sending (H := ExampleHost.plain)
           [Scenario.data_rule] [] Scenario.pattern_presend_rule
           (InputString Scenario.relative_url) None).
  - repeat constructor.
  - reflexivity.
  - eexists. reflexivity.
  - reflexivity.
Defined.

(** ** Calls no rule matches *)

Section Transparency.
Context `{H : Host}.

Lemma xhr_response_none (resend : XMLHttpRequestWithUrl -> JsVal -> M unit)
    (cfgs : list InjectConfig) (this : XMLHttpRequestWithUrl) (body : JsVal)
    (s : Snapshot) (h : option Handler) (sh : Shadow) :
  Forall (fun c => rule_matches (s_responseURL s) (x_method this) c = false) cfgs ->
  forall i, xhr_response resend i cfgs this body s h sh = ret (Completed sh).
Proof.
  induction 1 as [|c cfgs Hc _ IH]; intros i; [reflexivity|].
  rewrite (xhr_response_skip resend i c cfgs this body s h sh Hc). apply IH.
Qed.

Lemma xhr_onreadystatechange_unmatched
    (configs : list InjectConfig) (resend : XMLHttpRequestWithUrl -> JsVal -> M unit)
    (this : XMLHttpRequestWithUrl) (body : JsVal) (h : option Handler)
    (sh : Shadow) (s : Snapshot) :
  Forall (fun c => rule_matches (s_responseURL s) (x_method this) c = false) configs ->
  xhr_onreadystatechange configs resend this body h sh s
  = (match h with Some f => f (view_of this s sh) | None => [] end, Ok sh).
Proof.
  intros Hno. unfold xhr_onreadystatechange.
  rewrite (xhr_response_none resend configs this body s h sh Hno).
  destruct ((readyState (view_of this s sh) =? 4) && (status (view_of this s sh) =? 200));
    destruct h as [f|]; cbn [bind ret call_handler emit app]; rewrite ?app_nil_r;
    reflexivity.
Qed.

Lemma xhr_dispatch_constant (on_event : Shadow -> Snapshot -> M Shadow)
    (f : Snapshot -> list Event) (sh : Shadow) (events : list Snapshot) :
  Forall (fun s => on_event sh s = (f s, Ok sh)) events ->
  xhr_dispatch on_event sh events = (flat_map f events, Ok tt).
Proof.
  induction 1 as [|s events Hs _ IH]; [reflexivity|].
  cbn [xhr_dispatch flat_map]. rewrite Hs, IH. reflexivity.
Qed.

(** X15. A call on the legacy transport that no rule matches, neither by the
    URL it was opened with nor by the URL of any of its events (lines
    101-126, 129-203): the request goes to the browser as the page made it
    and the page's handler is called once per event, on the browser's own
    fields. *)
Theorem xhr_unmatched_call_is_untouched
    (fuel : nat) (configs : list InjectConfig)
    (this : XMLHttpRequestWithUrl) (body : JsVal) :
  Forall (fun c => rule_matches (requestUrl_of this) (x_method this) c = false) configs ->
  Forall (fun s =>
            Forall (fun c => rule_matches (s_responseURL s) (x_method this) c = false)
              configs)
    (xhr_network (request_of this body)) ->
  hijackXHR_send fuel configs this body
  = (NativeSend (request_of this body)
       :: flat_map (fun s => match x_onreadystatechange this with
                             | Some f => f (native_view this s)
                             | None => []
                             end)
            (xhr_network (request_of this body)),
     Ok tt).
Proof.
  intros Hreq Hev. rewrite hijackXHR_send_unfold. unfold send_body.
  rewrite (xhr_beforeSend_none configs _ this body Hreq).
  cbn [bind ret emit app].
  rewrite (xhr_dispatch_constant _
             (fun s => match x_onreadystatechange this with
                       | Some f => f (native_view this s)
                       | None => []
                       end)).
  - reflexivity.
  - eapply Forall_impl; [exact Hev|]. cbn beta. intros s Hs.
    rewrite (xhr_onreadystatechange_unmatched configs _ this body _ initial_shadow s Hs).
    reflexivity.
Qed.

Lemma fetch_beforeSend_none (cfgs : list InjectConfig) (u m : string)
    (input : FetchInput) (init : option RequestInit) :
  Forall (fun c => rule_matches u (Some m) c = false) cfgs ->
  forall i, fetch_beforeSend i cfgs u m input init = ret (input, init).
Proof.
  induction 1 as [|c cfgs Hc _ IH]; intros i; [reflexivity|].
  cbn [fetch_beforeSend]. rewrite Hc. apply IH.
Qed.

Lemma fetch_response_none (cfgs : list InjectConfig) (m : string)
    (init : option RequestInit) (response : Response) :
  Forall (fun c => rule_matches (rs_url response) (Some m) c = false) cfgs ->
  forall i, fetch_response i cfgs m init response = ret response.
Proof.
  induction 1 as [|c cfgs Hc _ IH]; intros i; [reflexivity|].
  rewrite (fetch_response_skip i c cfgs m init response Hc). apply IH.
Qed.

(** X16. A [fetch] call that no rule matches, neither by the URL it is made
    with nor by the URL of its response (lines 221-240, 242, 245-285): the
    browser's [fetch] is called once with the page's own arguments and the
    response it resolves to is returned as it is. *)
Theorem fetch_unmatched_call_is_untouched
    (configs : list InjectConfig) (input : FetchInput) (init : option RequestInit)
    (response : Response) :
  Forall (fun c => rule_matches (input_url input) (Some (fetch_method init)) c = false)
    configs ->
  fetch_network input init = Some response ->
  Forall (fun c => rule_matches (rs_url response) (Some (fetch_method init)) c = false)
    configs ->
  hijackFetch configs input init = ([NativeFetch input init], Ok response).
Proof.
  intros Hreq Hnet Hresp. unfold hijackFetch.
  rewrite (fetch_beforeSend_none configs _ _ input init Hreq).
  cbn [bind ret emit app]. rewrite Hnet. cbn [lift bind app].
  rewrite (fetch_response_none configs _ init response Hresp). reflexivity.
Qed.

(** X17. A rejection of the browser's [fetch] (line 242) rejects the patched
    [fetch] with the same error, after the pre-send stage and before any
    response hook. *)
Theorem fetch_network_error_propagates
    (configs : list InjectConfig) (input input' : FetchInput)
    (init init' : option RequestInit) (t0 : list Event) :
  fetch_beforeSend 0 configs (input_url input) (fetch_method init) input init
  = (t0, Ok (input', init')) ->
  fetch_network input' init' = None ->
  hijackFetch configs input init = (t0 ++ [NativeFetch input' init'], Throw NetworkError).
Proof.
  intros Hpre Hnet. unfold hijackFetch. rewrite Hpre.
  cbn [bind emit lift app]. rewrite Hnet. reflexivity.
Qed.

End Transparency.

Lemma xhr_unmatched_call_is_untouched_witness :
  hijackXHR_send (H := Scenario.hello_host) 0 [Scenario.other_rule]
    (Scenario.opened Scenario.data_url) JNull
  = ([NativeSend (mkXhrRequest (Some "GET") (Some Scenario.data_url) [] JNull "");
      HandlerCalled (mkProxy 200 (JStr "") "" "" (JStr "") JNull 2);
      HandlerCalled (mkProxy 200 (JStr "hello") "" "" (JStr "hello") JNull 4)],
     Ok tt).
Proof.
  apply (xhr_unmatched_call_is_untouched (H := Scenario.hello_host) 0
           [Scenario.other_rule] (Scenario.opened Scenario.data_url) JNull).
  - repeat constructor.
  - repeat constructor.
Defined.

Lemma fetch_unmatched_call_is_untouched_witness :
  hijackFetch (H := Scenario.hello_host) [Scenario.other_rule]
    (InputString Scenario.data_url) None
  = ([NativeFetch (InputString Scenario.data_url) None], Ok Scenario.hello_response).
Proof.
  apply (fetch_unmatched_call_is_untouched (H := Scenario.hello_host)
           [Scenario.other_rule] (InputString Scenario.data_url) None
           Scenario.hello_response).
  - repeat constructor.
  - reflexivity.
  - repeat constructor.
Defined.

Lemma fetch_network_error_propagates_witness :
  hijackFetch (H := ExampleHost.plain) [Scenario.rewriting_rule]
    (InputString Scenario.data_url) None
  = ([BeforeSendCalled 0 (mkRequestInfo Scenario.data_URL JUndefined)]
       ++ [NativeFetch (InputString "https://example.com/api/v2")
             (Some (mkInit None (JStr "patched") []))],
     Throw NetworkError).
Proof.
  apply (fetch_network_error_propagates (H := ExampleHost.plain)
           [Scenario.rewriting_rule] (InputString Scenario.data_url)
           (InputString "https://example.com/api/v2") None
           (Some (mkInit None (JStr "patched") []))
           [BeforeSendCalled 0 (mkRequestInfo Scenario.data_URL JUndefined)]).
  - reflexivity.
  - reflexivity.
Defined.

(** ** The response stage *)

Lemma Forall_trace_bind {A B} (P : Event -> Prop) (c : M A) (k : A -> M B) :
  Forall P (fst c) -> (forall a, Forall P (fst (k a))) -> Forall P (fst (bind c k)).
Proof.
  intros Hc Hk. destruct c as [t [a| |]]; cbn [bind fst] in *; try assumption.
  specialize (Hk a). destruct (k a) as [t' r]. cbn [fst] in *.
  apply Forall_app. split; assumption.
Qed.

(** Reading the entries of a [Headers] object: which names it has. *)
Lemma insert_name_In (name x : string) (names : list string) :
  In x (insert_name name names) <-> x = name \/ In x names.
Proof.
  induction names as [|n names IH]; cbn [insert_name In].
  - split; [intros [<-|[]]; left; reflexivity | intros [->|[]]; left; reflexivity].
  - destruct (String.eqb_spec name n) as [->|Hne].
    + cbn [In]. split; [intros Hin; right; exact Hin|].
      intros [->|Hin]; [left; reflexivity | exact Hin].
    + destruct (String.ltb name n); cbn [In].
      * split; [intros [<-|Hin]; [left; reflexivity | right; exact Hin]|].
        intros [->|Hin]; [left; reflexivity | right; exact Hin].
      * rewrite IH. split.
        -- intros [<-|[->|Hin]];
             [right; left; reflexivity | left; reflexivity | right; right; exact Hin].
        -- intros [->|[<-|Hin]];
             [right; left; reflexivity | left; reflexivity | right; right; exact Hin].
Qed.

Lemma sorted_names_In (x : string) (headers : list Header) :
  In x (sorted_names headers) <-> exists h, In h headers /\ x = toLowerCase (h_name h).
Proof.
  unfold sorted_names. induction headers as [|h headers IH]; cbn [map fold_right In].
  - split; [intros [] | intros (h & [] & _)].
  - rewrite insert_name_In, IH. split.
    + intros [->|(h' & Hin & ->)];
        [exists h; split; [left; reflexivity | reflexivity]
        |exists h'; split; [right; exact Hin | reflexivity]].
    + intros (h' & [<-|Hin] & ->); [left; reflexivity | right; exists h'; auto].
Qed.

Lemma Headers_has_true (name : string) (headers : list Header) :
  Headers_has name headers = true <->
  exists h, In h headers /\ toLowerCase (h_name h) = toLowerCase name.
Proof.
  unfold Headers_has, same_name. rewrite existsb_exists. split.
  - intros (h & Hin & Heq). exists h. split; [exact Hin | apply String.eqb_eq, Heq].
  - intros (h & Hin & Heq). exists h. split; [exact Hin | apply String.eqb_eq, Heq].
Qed.

Lemma Headers_has_entries (name : string) (headers : list Header) :
  Headers_has name (Headers_entries headers) = Headers_has name headers.
Proof.
  apply eq_true_iff_eq. rewrite !Headers_has_true. unfold Headers_entries. split.
  - intros (h & Hin & Heq). apply in_map_iff in Hin as (n & <- & Hn).
    apply sorted_names_In in Hn as (h' & Hin' & ->). cbn [h_name] in Heq.
    rewrite toLowerCase_idem in Heq. exists h'. split; assumption.
  - intros (h & Hin & Heq).
    exists (mkHeader (toLowerCase (h_name h))
              match Headers_get (toLowerCase (h_name h)) headers with
              | Some value => value
              | None => ""
              end).
    split.
    + apply in_map_iff. exists (toLowerCase (h_name h)). split; [reflexivity|].
      apply sorted_names_In. exists h. split; [exact Hin | reflexivity].
    + cbn [h_name]. rewrite toLowerCase_idem. exact Heq.
Qed.

Lemma Headers_has_same_name (name : string) (h : Header) (headers : list Header) :
  same_name name h = true ->
  Headers_has name headers = Headers_has (h_name h) headers.
Proof.
  unfold same_name. intros Heq. apply String.eqb_eq in Heq.
  unfold Headers_has, same_name. rewrite <- Heq. reflexivity.
Qed.

Section ResponseStageMore.
Context `{H : Host}.




Lemma fetch_beforeSend_events (cfgs : list InjectConfig) (u m : string)
    (input : FetchInput) (init : option RequestInit) :
  forall i, Forall (fun e => fetch_event e = true)
              (fst (fetch_beforeSend i cfgs u m input init)).
Proof.
  induction cfgs as [|c cfgs IH]; intros i; [constructor|].
  destruct (rule_matches u (Some m) c) eqn:Hm.
  - rewrite (fetch_beforeSend_at_match i c cfgs u m input init Hm).
    destruct (beforeSendCallback c) as [hook|]; [|constructor].
    destruct (genUrl u) as [a|e|]; repeat constructor.
  - cbn [fetch_beforeSend]. rewrite Hm. apply IH.
Qed.

Lemma fetch_response_events (cfgs : list InjectConfig) (m : string)
    (init : option RequestInit) (response : Response) :
  forall i, Forall (fun e => fetch_event e = true)
              (fst (fetch_response i cfgs m init response)).
Proof.
  induction cfgs as [|c cfgs IH]; intros i; [constructor|].
  destruct (rule_matches (rs_url response) (Some m) c) eqn:Hm.
  - destruct (genUrl (rs_url response)) as [u|e|] eqn:Hgen.
    + rewrite (fetch_response_match i c cfgs m init response u Hm Hgen). cbv zeta.
      assert (Hev : forall d info,
                 Forall (fun e => fetch_event e = true) (fetch_rule_events i c d info)).
      { intros d info. unfold fetch_rule_events.
        destruct (callback c), (lastCallback c); repeat constructor. }
      destruct (lastCallback c) as [hook|]; cbn [fst].
      * apply Hev.
      * apply Forall_app. split; [apply Hev | apply IH].
    + cbn [fetch_response]. rewrite Hm, Hgen. constructor.
    + cbn [fetch_response]. rewrite Hm, Hgen. constructor.
  - rewrite (fetch_response_skip i c cfgs m init response Hm). apply IH.
Qed.

(** X19. The patched [fetch] (lines 212-286) never invokes a [preCallback],
    whatever the registry holds, and never touches the legacy transport:
    the only things it does are calls of [beforeSendCallback], of the
    browser's [fetch], of [callback] and of [lastCallback]. *)
Theorem fetch_never_runs_preCallback
    (configs : list InjectConfig) (input : FetchInput) (init : option RequestInit) :
  Forall (fun e => fetch_event e = true) (trace_of (hijackFetch configs input init)) /\
  forall k d info, ~ In (PreCalled k d info) (trace_of (hijackFetch configs input init)).
Proof.
  assert (Hall : Forall (fun e => fetch_event e = true)
                   (trace_of (hijackFetch configs input init))).
  { unfold trace_of, hijackFetch.
    apply Forall_trace_bind; [apply fetch_beforeSend_events|].
    intros [input' init'].
    apply Forall_trace_bind; [repeat constructor|]. intros _.
    apply Forall_trace_bind; [constructor|]. intros response.
    apply fetch_response_events. }
  split; [exact Hall|].
  intros k d info Hin. rewrite List.Forall_forall in Hall.
  specialize (Hall _ Hin). discriminate Hall.
Qed.

(** The response loop of [fetch] over leading rules that do not replace
    the response: rules that do not match, or have no [lastCallback]. *)
Lemma fetch_response_passes (pre rest : list InjectConfig) (m : string)
    (init : option RequestInit) (response : Response) (u : URL) :
  genUrl (rs_url response) = Ok u ->
  Forall (fun c => rule_matches (rs_url response) (Some m) c = true ->
                   lastCallback c = None) pre ->
  forall i,
    snd (fetch_response i (pre ++ rest) m init response)
    = snd (fetch_response (i + length pre) rest m init response).
Proof.
  intros Hgen Hpre. induction Hpre as [|c pre Hc _ IH]; intros i.
  - cbn [app length]. rewrite Nat.add_0_r. reflexivity.
  - cbn [app length]. replace (i + S (length pre))%nat with (S i + length pre)%nat by lia.
    destruct (rule_matches (rs_url response) (Some m) c) eqn:Hm.
    + rewrite (fetch_response_match i c (pre ++ rest) m init response u Hm Hgen).
      cbv zeta. rewrite (Hc eq_refl). cbn [snd]. apply IH.
    + rewrite (fetch_response_skip i c (pre ++ rest) m init response Hm). apply IH.
Qed.


Lemma stringify_defined (v : JsVal) : v <> JUndefined -> is_Some (stringify v).
Proof.
  destruct v as [| |[]|z|text|items|fields]; intros Hv;
    try contradiction; eexists; reflexivity.
Qed.

(** X21. A rule with a [lastCallback] on a response whose status forbids a body
    (204, 205, 304): the hook's result makes a body, the [Response]
    constructor of line 276 throws, and the patched [fetch] rejects where
    the browser's had resolved. *)
Theorem fetch_lastCallback_rejects_null_body_status
    (pre post : list InjectConfig) (c : InjectConfig)
    (hook : JsVal -> IRequestInfo -> JsVal)
    (m : string) (init : option RequestInit) (response : Response) (u : URL) :
  genUrl (rs_url response) = Ok u ->
  Forall (fun c' => rule_matches (rs_url response) (Some m) c' = true ->
                    lastCallback c' = None) pre ->
  rule_matches (rs_url response) (Some m) c = true ->
  lastCallback c = Some hook ->
  hook (parsed_or_raw (rs_body response)) (mkRequestInfo u (init_body_of init))
  <> JUndefined ->
  200 <= rs_status response ->
  null_body_status (rs_status response) = true ->
  result_of (fetch_response 0 (pre ++ c :: post) m init response)
  = Throw (TypeError_nullBodyStatus (rs_status response)).
Proof.
  intros Hgen Hpre Hm Hlast Hv Hlo Hnull. unfold result_of.
  rewrite (fetch_response_passes pre (c :: post) m init response u Hgen Hpre 0).
  rewrite (fetch_response_match _ c post m init response u Hm Hgen), Hlast.
  cbv zeta. cbn [snd]. unfold new_Response.
  assert (Hrange : (rs_status response <? 200) || (599 <? rs_status response) = false).
  { unfold null_body_status in Hnull. lia. }
  rewrite Hrange.
  destruct (stringify_defined _ Hv) as [text Htext].
  destruct (hook (parsed_or_raw (rs_body response))
              (mkRequestInfo u (init_body_of init))) as [| |flag|z|s|items|fields] eqn:Hk;
    cbn [is_string]; unfold JSON_stringify; try rewrite Htext; try rewrite Hnull;
    try reflexivity.
Qed.

(** X22. The response a [lastCallback] produces on the modern transport
    (lines 270-280): status and status text are the original's; the body is
    the string the hook returned, or the [JSON.stringify] of another value;
    the headers are the original's entries, to which a
    [content-type: text/plain;charset=UTF-8] is added when the hook's
    result makes a body and the original has no [Content-Type]; and the
    [url] of the original response is lost, the new response having
    none. *)
Theorem fetch_lastCallback_response
    (pre post : list InjectConfig) (c : InjectConfig)
    (hook : JsVal -> IRequestInfo -> JsVal)
    (m : string) (init : option RequestInit) (response r : Response) (u : URL) :
  genUrl (rs_url response) = Ok u ->
  Forall (fun c' => rule_matches (rs_url response) (Some m) c' = true ->
                    lastCallback c' = None) pre ->
  rule_matches (rs_url response) (Some m) c = true ->
  lastCallback c = Some hook ->
  result_of (fetch_response 0 (pre ++ c :: post) m init response) = Ok r ->
  let v := hook (parsed_or_raw (rs_body response)) (mkRequestInfo u (init_body_of init)) in
  let filled := Headers_entries (rs_headers response) in
  rs_url r = "" /\
  rs_status r = rs_status response /\
  rs_statusText r = rs_statusText response /\
  rs_headers r = match v with
                 | JUndefined => filled
                 | _ => Headers_entries
                          (if Headers_has "content-type" filled then filled
                           else filled ++ [text_plain])
                 end /\
  (forall name,
     Headers_has name (rs_headers r)
     = Headers_has name (rs_headers response)
       || match v with
          | JUndefined => false
          | _ => same_name name text_plain
          end) /\
  rs_body r = match v with
              | JStr text => text
              | _ => match stringify v with Some text => text | None => "" end
              end.
Proof.
  intros Hgen Hpre Hm Hlast. unfold result_of.
  rewrite (fetch_response_passes pre (c :: post) m init response u Hgen Hpre 0).
  rewrite (fetch_response_match _ c post m init response u Hm Hgen), Hlast.
  cbv zeta. cbn [snd]. unfold new_Response, JSON_stringify.
  generalize (hook (parsed_or_raw (rs_body response))
                (mkRequestInfo u (init_body_of init))).
  intros v.
  destruct ((rs_status response <? 200) || (599 <? rs_status response));
    [discriminate|].
  assert (Hadded : forall name,
    Headers_has name
      (Headers_entries
         (if Headers_has "content-type" (Headers_entries (rs_headers response))
          then Headers_entries (rs_headers response)
          else Headers_entries (rs_headers response) ++ [text_plain]))
    = Headers_has name (rs_headers response) || same_name name text_plain).
  { intros name. rewrite Headers_has_entries.
    destruct (Headers_has "content-type" (Headers_entries (rs_headers response)))
      eqn:Hct.
    - rewrite Headers_has_entries.
      destruct (same_name name text_plain) eqn:Hname; [|rewrite orb_false_r; reflexivity].
      rewrite orb_true_r. rewrite Headers_has_entries in Hct.
      rewrite <- Hct. exact (Headers_has_same_name name text_plain _ Hname).
    - unfold Headers_has at 1. rewrite existsb_app. cbn [existsb].
      rewrite orb_false_r. fold (Headers_has name (Headers_entries (rs_headers response))).
      rewrite Headers_has_entries. reflexivity. }
  destruct v as [| |flag|z|text|items|fields]; cbn [is_string stringify];
    repeat match goal with
           | |- context [if null_body_status ?st then _ else _] =>
               destruct (null_body_status st)
           | |- context [match (if ?b then _ else _) with _ => _ end] => destruct b
           end;
    try discriminate; intros [= <-]; cbn [rs_url rs_status rs_statusText rs_headers rs_body];
    repeat split; try reflexivity; intros name;
    try apply Hadded; rewrite Headers_has_entries, orb_false_r; reflexivity.
Qed.

End ResponseStageMore.



Lemma fetch_lastCallback_rejects_null_body_status_witness :
  result_of (fetch_response (H := ExampleHost.plain) 0
               ([Scenario.watch_data] ++ Scenario.ok_rule :: []) "GET" None
               Scenario.no_content_response)
  = Throw (TypeError_nullBodyStatus 204).
Proof.
  refine (fetch_lastCallback_rejects_null_body_status (H := ExampleHost.plain)
            [Scenario.watch_data] [] Scenario.ok_rule _ "GET" None
            Scenario.no_content_response Scenario.data_URL
            eq_refl _ eq_refl eq_refl _ _ eq_refl).
  - repeat (constructor; [reflexivity|]). constructor.
  - discriminate.
  - cbn. lia.
Defined.

Lemma fetch_lastCallback_response_witness :
  exists r,
    result_of (fetch_response (H := ExampleHost.plain) 0
                 ([Scenario.watch_data] ++ Scenario.ok_rule :: []) "GET" None
                 Scenario.hello_response) = Ok r /\
    rs_url r = "" /\ rs_headers r = [text_plain] /\ rs_body r = "ok".
Proof.
  eexists.
  match goal with |- ?E /\ _ => assert (He : E) by reflexivity end.
  split; [exact He|].
  assert (Hpre : Forall (fun c' =>
                   rule_matches (H := ExampleHost.plain)
                     (rs_url Scenario.hello_response) (Some "GET") c' = true ->
                   lastCallback c' = None) [Scenario.watch_data]).
  { repeat constructor. }
  destruct (fetch_lastCallback_response (H := ExampleHost.plain)
              [Scenario.watch_data] [] Scenario.ok_rule _ "GET" None
              Scenario.hello_response _ Scenario.data_URL
              eq_refl Hpre eq_refl eq_refl He) as (Hu & _ & _ & Hh & _ & Hb).
  split; [exact Hu|]. split; [exact Hh | exact Hb].
Defined.

Section LastCallbackChain.
Context `{H : Host}.

(** X23. Two rules with a [lastCallback] that both match a completed call on
    the legacy transport whose [responseType] is [json], the empty string
    or [text] (lines 185-198): the second hook is given what the object
    reads after the first, that is the first hook's value for a [json]
    response and its [JSON.stringify] for a text response; the page reads
    the second hook's value. *)
Theorem xhr_lastCallbacks_chain
    (resend : XMLHttpRequestWithUrl -> JsVal -> M unit)
    (c1 c2 : InjectConfig) (h1 h2 : JsVal -> IRequestInfo -> JsVal)
    (this : XMLHttpRequestWithUrl) (body : JsVal) (s : Snapshot) (u : URL) :
  s_readyState s = 4 -> s_status s = 200 ->
  x_responseType this = "json" \/ responseText_readable (x_responseType this) = true ->
  rule_matches (s_responseURL s) (x_method this) c1 = true ->
  rule_matches (s_responseURL s) (x_method this) c2 = true ->
  genUrl (s_responseURL s) = Ok u ->
  preCallback c1 = None -> preCallback c2 = None ->
  lastCallback c1 = Some h1 -> lastCallback c2 = Some h2 ->
  let info := mkRequestInfo u body in
  let d1 := if String.eqb (x_responseType this) "json" then s_response s
            else s_responseText s in
  let v1 := h1 d1 info in
  let d2 := if String.eqb (x_responseType this) "json" then v1 else JSON_stringify v1 in
  let v2 := h2 d2 info in
  In (LastCalled 0 d1 info)
    (trace_of (xhr_onreadystatechange [c1; c2] resend this body (Some page_handler)
                 initial_shadow s)) /\
  In (LastCalled 1 d2 info)
    (trace_of (xhr_onreadystatechange [c1; c2] resend this body (Some page_handler)
                 initial_shadow s)) /\
  handler_views
    (trace_of (xhr_onreadystatechange [c1; c2] resend this body (Some page_handler)
                 initial_shadow s))
  = [mkProxy (s_status s) v2 (s_statusText s) (x_responseType this)
       (JSON_stringify v2) (s_responseXML s) (s_readyState s)].
Proof.
  intros Hrs Hst Htype Hm1 Hm2 Hgen Hp1 Hp2 Hl1 Hl2. cbv zeta.
  set (info := mkRequestInfo u body).
  set (d1 := if String.eqb (x_responseType this) "json" then s_response s
             else s_responseText s).
  set (d2 := if String.eqb (x_responseType this) "json" then h1 d1 info
             else JSON_stringify (h1 d1 info)).
  assert (Hd1 : getResponseData (text_access initial_shadow)
                  (view_of this s initial_shadow) = Ok d1).
  { unfold getResponseData, read_responseText, d1.
    cbn [text_access initial_shadow redefined view_of responseType response responseText].
    destruct Htype as [-> | ->]; [reflexivity|].
    destruct (String.eqb (x_responseType this) "json"); reflexivity. }
  assert (Hd2 : getResponseData
                  (text_access (xhr_rule_shadow c1 d1 info initial_shadow))
                  (view_of this s (xhr_rule_shadow c1 d1 info initial_shadow)) = Ok d2).
  { unfold xhr_rule_shadow. rewrite Hl1. cbn [text_access redefined].
    rewrite getResponseData_own. reflexivity. }
  assert (Hrun :
    trace_of (xhr_onreadystatechange [c1; c2] resend this body (Some page_handler)
                initial_shadow s)
    = (xhr_rule_events 0 c1 d1 info ++ xhr_rule_events 1 c2 d2 info)
      ++ [HandlerCalled
            (mkProxy (s_status s) (h2 d2 info) (s_statusText s) (x_responseType this)
               (JSON_stringify (h2 d2 info)) (s_responseXML s) (s_readyState s))]).
  { unfold trace_of, xhr_onreadystatechange.
    rewrite (view_of_native this s initial_shadow eq_refl).
    cbn [native_view readyState status]. rewrite Hrs, Hst. cbn [Z.eqb Pos.eqb andb].
    rewrite (xhr_response_match resend 0 c1 [c2] this body s (Some page_handler)
               initial_shadow u d1 Hm1 Hgen Hd1) by (intros pre Hpre; congruence).
    cbv zeta. fold info.
    rewrite (xhr_response_match resend 1 c2 [] this body s (Some page_handler)
               _ u d2 Hm2 Hgen Hd2) by (intros pre Hpre; congruence).
    cbv zeta. cbn [xhr_response ret fst snd]. rewrite app_nil_r, bind_Ok.
    cbn [fst snd call_handler emit ret bind page_handler app].
    unfold xhr_rule_shadow. rewrite Hl1, Hl2.
    unfold view_of. cbn [redefined proxy set_body response responseText].
    rewrite Hrs, Hst. reflexivity. }
  rewrite Hrun. split; [|split].
  - rewrite !in_app_iff. left. left. unfold xhr_rule_events. rewrite Hp1, Hl1.
    rewrite !in_app_iff. right. right. left. reflexivity.
  - rewrite !in_app_iff. left. right. unfold xhr_rule_events. rewrite Hp2, Hl2.
    rewrite !in_app_iff. right. right. left. reflexivity.
  - rewrite handler_views_app.
    rewrite (handler_views_free _
               (handler_free_app _ _ (xhr_rule_events_free _ _ _ _)
                  (xhr_rule_events_free _ _ _ _))).
    reflexivity.
Qed.

End LastCallbackChain.

Lemma xhr_lastCallbacks_chain_witness :
  handler_views
    (trace_of (xhr_onreadystatechange (H := ExampleHost.plain)
                 [Scenario.ok_rule; Scenario.wrap_rule] (fun _ _ => out_of_fuel)
                 (Scenario.opened Scenario.data_url) JNull (Some page_handler)
                 initial_shadow Scenario.hello_completion))
  = [mkProxy 200 (JArr [JStr (quote "ok")]) "" ""
       (JSON_stringify (JArr [JStr (quote "ok")])) JNull 4].
Proof.
  exact (proj2 (proj2 (xhr_lastCallbacks_chain (H := ExampleHost.plain)
           (fun _ _ => out_of_fuel) Scenario.ok_rule Scenario.wrap_rule _ _
           (Scenario.opened Scenario.data_url) JNull Scenario.hello_completion
           Scenario.data_URL eq_refl eq_refl (or_intror eq_refl) eq_refl eq_refl
           eq_refl eq_refl eq_refl eq_refl eq_refl))).
Defined.

(** ** Supersession *)

Section SupersessionLoop.
Context `{H : Host}.

Lemma xhr_beforeSend_no_hooks (cfgs : list InjectConfig) (u : string)
    (this : XMLHttpRequestWithUrl) (body : JsVal) :
  (forall c, In c cfgs -> beforeSendCallback c = None) ->
  forall i, xhr_beforeSend i cfgs u this body = ret (this, body).
Proof.
  induction cfgs as [|c cfgs IH]; intros Hno i; [reflexivity|].
  cbn [xhr_beforeSend]. rewrite (Hno c (or_introl eq_refl)).
  rewrite (IH (fun c' Hc' => Hno c' (or_intror Hc'))).
  destruct (rule_matches u (x_method this) c); reflexivity.
Qed.

Lemma xhr_response_skip_prefix (resend : XMLHttpRequestWithUrl -> JsVal -> M unit)
    (pre rest : list InjectConfig) (this : XMLHttpRequestWithUrl) (body : JsVal)
    (s : Snapshot) (h : option Handler) (sh : Shadow) :
  Forall (fun c => rule_matches (s_responseURL s) (x_method this) c = false) pre ->
  forall i,
    xhr_response resend i (pre ++ rest) this body s h sh
    = xhr_response resend (i + length pre) rest this body s h sh.
Proof.
  induction 1 as [|c pre Hc _ IH]; intros i.
  - cbn [app length]. rewrite Nat.add_0_r. reflexivity.
  - cbn [app length].
    rewrite (xhr_response_skip resend i c (pre ++ rest) this body s h sh Hc), IH.
    f_equal. lia.
Qed.







End SupersessionLoop.




(** ** Captured request headers *)

Lemma Map_set_keys {V : Type} (k : string) (v : V) (m : list (string * V)) :
  (In k (map fst m) -> map fst (Map_set k v m) = map fst m) /\
  (~ In k (map fst m) -> map fst (Map_set k v m) = map fst m ++ [k]).
Proof.
  induction m as [|[k' v'] m [IHin IHout]]; cbn [Map_set map fst app In].
  - split; [intros [] | reflexivity].
  - destruct (String.eqb_spec k' k) as [->|Hne]; cbn [map fst].
    + split; [reflexivity | intros Hout; exfalso; apply Hout; left; reflexivity].
    + split.
      * intros [Heq|Hin]; [contradiction|]. rewrite (IHin Hin). reflexivity.
      * intros Hout. rewrite IHout; [reflexivity|]. intros Hin. apply Hout. right. exact Hin.
Qed.

Lemma Map_set_values {V : Type} (k : string) (v x : V) (m : list (string * V)) :
  In x (map snd (Map_set k v m)) -> x = v \/ In x (map snd m).
Proof.
  induction m as [|[k' v'] m IH]; cbn [Map_set map snd In].
  - intros [<-|[]]. left. reflexivity.
  - destruct (String.eqb k' k); cbn [map snd In].
    + intros [<-|Hin]; [left; reflexivity | right; right; exact Hin].
    + intros [<-|Hin]; [right; left; reflexivity|].
      destruct (IH Hin) as [->|Hin']; [left; reflexivity | right; right; exact Hin'].
Qed.

Lemma Map_set_entries {V : Type} (P : string * V -> Prop) (k : string) (v : V)
    (m : list (string * V)) :
  P (k, v) -> Forall P m -> Forall P (Map_set k v m).
Proof.
  intros Hkv. induction 1 as [|[k' v'] m Hx Hm IH]; cbn [Map_set].
  - repeat constructor. exact Hkv.
  - destruct (String.eqb k' k); constructor; assumption.
Qed.

Lemma Map_set_wf (name value : string) (hs : list (string * Header)) :
  captured_wf hs ->
  captured_wf (Map_set (toLowerCase name) (mkHeader name value) hs).
Proof.
  intros [Hkeys Hnodup]. split.
  - apply Map_set_entries; [reflexivity | exact Hkeys].
  - destruct (Map_set_keys (toLowerCase name) (mkHeader name value) hs) as [Hin Hout].
    destruct (in_dec string_dec (toLowerCase name) (map fst hs)) as [Hk|Hk].
    + rewrite (Hin Hk). exact Hnodup.
    + rewrite (Hout Hk). apply NoDup_app. split; [exact Hnodup|]. split.
      * intros x Hx Hx'. apply list_elem_of_singleton in Hx'. subst x.
        apply Hk, list_elem_of_In, Hx.
      * apply NoDup_singleton.
Qed.

Lemma Map_set_same {V : Type} (k : string) (v : V) (m : list (string * V)) :
  NoDup (map fst m) -> In (k, v) m -> Map_set k v m = m.
Proof.
  induction m as [|[k' v'] m IH]; cbn [Map_set map fst In]; [intros _ []|].
  intros Hnodup Hin. apply NoDup_cons in Hnodup as [Hfresh Hnodup].
  destruct (String.eqb_spec k' k) as [->|Hne].
  - destruct Hin as [Heq|Hin]; [congruence|].
    exfalso. apply Hfresh, list_elem_of_In. apply (in_map fst) in Hin. exact Hin.
  - destruct Hin as [Heq|Hin]; [congruence|]. rewrite (IH Hnodup Hin). reflexivity.
Qed.

Lemma Map_get_set_some {V : Type} (k k0 : string) (v : V) (m : list (string * V)) :
  is_Some (Map_get k0 m) -> is_Some (Map_get k0 (Map_set k v m)).
Proof.
  intros Hsome. destruct (string_dec k k0) as [->|Hne].
  - rewrite Map_get_set_eq. eexists. reflexivity.
  - rewrite (Map_get_set_ne k k0 v m Hne). exact Hsome.
Qed.

(** Applying captured headers again does not change the map they were
    captured in. *)
Lemma reapply_headers_keeps_map (hs : list (string * Header)) :
  captured_wf hs ->
  forall saved this,
    (forall e, In e saved -> In e hs) ->
    x_requestHeaders this = Some hs ->
    exists this',
      snd (reapply_headers saved this) = Ok this' /\ x_requestHeaders this' = Some hs.
Proof.
  intros [Hkeys Hnodup]. induction saved as [|[k [name value]] saved IH];
    intros this Hsub Hmap.
  - exists this. split; [reflexivity | exact Hmap].
  - cbn [reapply_headers h_name h_value].
    assert (Hin : In (k, mkHeader name value) hs) by (apply Hsub; left; reflexivity).
    assert (Hk : k = toLowerCase name).
    { rewrite List.Forall_forall in Hkeys. apply (Hkeys _ Hin). }
    destruct (negb (String.eqb (toLowerCase name) "content-length")).
    + unfold setRequestHeader. rewrite Hmap. cbn [bind emit ret app].
      subst k. rewrite (Map_set_same _ _ hs Hnodup Hin).
      match goal with
      | |- context [reapply_headers saved ?x] =>
          destruct (IH x (fun e He => Hsub e (or_intror He)) eq_refl) as (this' & Hre & Hm);
          destruct (reapply_headers saved x) as [t r]
      end.
      cbn [snd] in *. exists this'. split; assumption.
    + apply IH; [intros e He; apply Hsub; right; exact He | exact Hmap].
Qed.

Lemma set_headers_spec (headers : list Header) :
  forall this hs,
    x_requestHeaders this = Some hs -> captured_wf hs ->
    exists this' hs',
      set_headers headers this
      = (map (fun h => NativeSetRequestHeader (h_name h) (h_value h)) headers, Ok this') /\
      x_nativeHeaders this' = x_nativeHeaders this ++ headers /\
      x_requestHeaders this' = Some hs' /\
      captured_wf hs' /\
      (forall h, In h (map snd hs') -> In h (map snd hs) \/ In h headers) /\
      (forall k, is_Some (Map_get k hs) -> is_Some (Map_get k hs')) /\
      (forall h, In h headers -> is_Some (Map_get (toLowerCase (h_name h)) hs')).
Proof.
  induction headers as [|[name value] headers IH]; intros this hs Hmap Hwf.
  - exists this, hs. cbn [set_headers map]. rewrite app_nil_r.
    split; [reflexivity|]. split; [reflexivity|]. split; [exact Hmap|].
    split; [exact Hwf|]. split; [intros h Hh; left; exact Hh|].
    split; [intros k Hk; exact Hk|]. intros h [].
  - cbn [set_headers h_name h_value map]. unfold setRequestHeader. rewrite Hmap.
    cbn [bind emit ret app].
    match goal with
    | |- context [set_headers headers ?x] =>
        destruct (IH x _ eq_refl (Map_set_wf name value hs Hwf))
          as (this' & hs' & Hrun & Hnat & Hmap' & Hwf' & Hsub & Hmono & Hall)
    end.
    rewrite Hrun. cbn [x_nativeHeaders] in Hnat.
    exists this', hs'. split; [reflexivity|].
    split; [rewrite Hnat, <- app_assoc; reflexivity|].
    split; [exact Hmap'|]. split; [exact Hwf'|]. split; [|split].
    + intros h Hh. destruct (Hsub h Hh) as [Hold|Hnew].
      * destruct (Map_set_values _ _ _ _ Hold) as [->|Hin];
          [right; left; reflexivity | left; exact Hin].
      * right. right. exact Hnew.
    + intros k Hk. apply Hmono, Map_get_set_some, Hk.
    + intros h [<-|Hh]; [|apply Hall, Hh].
      apply Hmono. cbn [h_name]. rewrite Map_get_set_eq. eexists. reflexivity.
Qed.

(** X26. The header map [open] creates and [setRequestHeader] fills (lines
    63-72): after any sequence of [setRequestHeader] calls on a new
    object, the browser holds every header in the order given, while the
    map holds one entry per lower-cased name, each of them one of the
    headers set, with an entry for every name that was set; and applying
    the map's headers again (lines 117-121) leaves the map as it is. *)
Theorem captured_headers_index_the_headers_set
    (m uri : option string) (headers : list Header) :
  exists this' captured,
    (x <- hijackXHR_open new_XMLHttpRequest m uri;; set_headers headers x)
    = (NativeOpen m uri
         :: map (fun h => NativeSetRequestHeader (h_name h) (h_value h)) headers,
       Ok this') /\
    x_nativeHeaders this' = headers /\
    x_requestHeaders this' = Some captured /\
    captured_wf captured /\
    (forall h, In h (map snd captured) -> In h headers) /\
    (forall h, In h headers -> is_Some (Map_get (toLowerCase (h_name h)) captured)) /\
    exists again,
      result_of (reapply_headers captured this') = Ok again /\
      x_requestHeaders again = Some captured.
Proof.
  rewrite hijackXHR_open_new. cbn [bind].
  destruct (set_headers_spec headers (superseding_request m uri) [] eq_refl)
    as (this' & hs' & Hrun & Hnat & Hmap & Hwf & Hsub & _ & Hall).
  { split; constructor. }
  rewrite Hrun. exists this', hs'. cbn [app].
  split; [reflexivity|]. split; [exact Hnat|]. split; [exact Hmap|].
  split; [exact Hwf|]. split; [|split; [exact Hall|]].
  - intros h Hh. destruct (Hsub h Hh) as [[]|Hin]. exact Hin.
  - apply (reapply_headers_keeps_map hs' Hwf hs' this' (fun e He => He) Hmap).
Qed.

Section Reopen.
Context `{H : Host}.

(** X27. [open] on an object that was opened before (lines 60-73): the browser
    empties its header list, the map of captured headers is kept (line 63
    skips line 65).  A URL override at the pre-send stage then sets the
    headers captured before the second [open] on the request again. *)
Theorem reopen_keeps_captured_headers
    (pre post : list InjectConfig) (config : InjectConfig)
    (hook : IRequestInfo -> option BeforeSendCallBackResult)
    (this : XMLHttpRequestWithUrl) (m uri : option string) (body : JsVal)
    (u newUrl : URL) (result : BeforeSendCallBackResult)
    (captured : list (string * Header)) :
  x_requestHeaders this = Some captured ->
  let reopened :=
    mkXhr uri m (Some captured) [] (x_responseType this) (x_onreadystatechange this) in
  Forall (fun c => rule_matches (requestUrl_of reopened) m c = false) pre ->
  rule_matches (requestUrl_of reopened) m config = true ->
  beforeSendCallback config = Some hook ->
  parse_URL (requestUrl_of reopened) = Some u ->
  hook (mkRequestInfo u body) = Some result ->
  bs_url result = Some newUrl ->
  hijackXHR_open this m uri = ([NativeOpen m uri], Ok reopened) /\
  x_nativeHeaders reopened = [] /\
  exists t this' body',
    xhr_beforeSend 0 (pre ++ config :: post) (requestUrl_of reopened) reopened body
    = (t, Ok (this', body')) /\
    rq_headers (request_of this' body') = kept_headers captured.
Proof.
  intros Hmap reopened Hpre Hm Hhook Hparse Hres Hurl.
  split; [|split; [reflexivity|]].
  - unfold hijackXHR_open, native_open. rewrite Hmap. reflexivity.
  - destruct (xhr_beforeSend_override (pre ++ config :: post) pre post config hook
                reopened body u newUrl result captured eq_refl Hpre Hm Hhook Hparse
                Hres Hurl eq_refl) as (this' & body' & Hrun & _ & _ & Hheaders & _).
    eexists _, this', body'. split; [exact Hrun | exact Hheaders].
Qed.

(** X28. The patched [send] only ever calls the page's handler: running a call
    with a handler [g] is running it with a handler that merely records the
    fields it is shown, and giving each record to [g]; the native calls,
    the hook invocations and the outcome are the same (lines 80, 178,
    202). *)
Theorem handler_is_only_called
    (fuel : nat) (configs : list InjectConfig) (x : XMLHttpRequestWithUrl)
    (g : Handler) (body : JsVal) :
  let with_g := hijackXHR_send fuel configs (set_onreadystatechange x (Some g)) body in
  let recorded :=
    hijackXHR_send fuel configs (set_onreadystatechange x (Some page_handler)) body in
  trace_of with_g = redirect g (trace_of recorded) /\
  result_of with_g = result_of recorded.
Proof.
  cbv zeta. unfold trace_of, result_of.
  rewrite (hijackXHR_send_natural fuel configs x g body). split; reflexivity.
Qed.

End Reopen.

Lemma reopen_keeps_captured_headers_witness :
  exists t this' body',
    xhr_beforeSend (H := ExampleHost.plain) 0 ([] ++ Scenario.moving_rule :: [])
      Scenario.data_url
      (mkXhr (Some Scenario.data_url) (Some "POST")
         (x_requestHeaders Scenario.with_headers) [] "" (Some page_handler))
      JNull
    = (t, Ok (this', body')) /\
    rq_headers (request_of this' body')
    = [mkHeader "X-Token" "abc"; mkHeader "Accept" "text/plain"].
Proof.
  exact (proj2 (proj2 (reopen_keeps_captured_headers (H := ExampleHost.plain)
           [] [] Scenario.moving_rule _ Scenario.with_headers
           (Some "POST") (Some Scenario.data_url) JNull Scenario.data_URL
           Scenario.v2_url _ _ eq_refl (List.Forall_nil _) eq_refl eq_refl eq_refl
           eq_refl eq_refl))).
Defined.

Lemma fetch_never_runs_preCallback_witness :
  ~ In (PreCalled 0 (JStr "hello") (mkRequestInfo Scenario.data_URL JUndefined))
      (trace_of (hijackFetch (H := Scenario.hello_host) [Scenario.hooked_rule]
                   (InputString Scenario.data_url) None)).
Proof.
  exact (proj2 (fetch_never_runs_preCallback (H := Scenario.hello_host)
                  [Scenario.hooked_rule] (InputString Scenario.data_url) None)
           0%nat (JStr "hello") (mkRequestInfo Scenario.data_URL JUndefined)).
Defined.

Lemma captured_headers_index_the_headers_set_witness :
  exists this' captured,
    x_nativeHeaders this'
    = [mkHeader "X-Token" "abc"; mkHeader "x-token" "def"] /\
    x_requestHeaders this' = Some captured /\
    captured_wf captured.
Proof.
  destruct (captured_headers_index_the_headers_set (Some "GET") (Some Scenario.data_url)
              [mkHeader "X-Token" "abc"; mkHeader "x-token" "def"])
    as (this' & captured & _ & Hnat & Hmap & Hwf & _).
  exists this', captured. split; [exact Hnat|]. split; [exact Hmap | exact Hwf].
Defined.

Lemma handler_is_only_called_witness :
  result_of (hijackXHR_send (H := Scenario.hello_host) 0 [Scenario.hooked_rule]
               (set_onreadystatechange (Scenario.opened Scenario.data_url)
                  (Some (fun _ => []))) JNull)
  = result_of (hijackXHR_send (H := Scenario.hello_host) 0 [Scenario.hooked_rule]
                 (set_onreadystatechange (Scenario.opened Scenario.data_url)
                    (Some page_handler)) JNull).
Proof.
  exact (proj2 (handler_is_only_called (H := Scenario.hello_host) 0
                  [Scenario.hooked_rule] (Scenario.opened Scenario.data_url)
                  (fun _ => []) JNull)).
Defined.

Section SupersededView.
Context `{H : Host}.








End SupersededView.


Section UnreadableResponse.
Context `{H : Host}.

(** X30. A call whose [responseType] is neither [json] nor one for which
    the browser serves [responseText] ([arraybuffer], [blob], [document]),
    at a completion (ready state 4, status 200) that some rule matches
    (lines 132-141, 185, 343): [getResponseData] throws before any hook of
    that rule, the wrapped handler is left, and the completion is lost:
    the page's handler is not called for it and no hook of the matching
    rule or of a later one runs.  With no pre-send hook in the registry
    and a server that answers with that completion alone, the whole call
    is the native [send] and a rejection nobody handles. *)
Theorem xhr_unreadable_responseType_loses_completion
    (pre post : list InjectConfig) (c : InjectConfig)
    (resend : XMLHttpRequestWithUrl -> JsVal -> M unit)
    (this : XMLHttpRequestWithUrl) (body : JsVal) (h : option Handler)
    (s : Snapshot) (u : URL) :
  Forall (fun c' => rule_matches (s_responseURL s) (x_method this) c' = false) pre ->
  rule_matches (s_responseURL s) (x_method this) c = true ->
  genUrl (s_responseURL s) = Ok u ->
  s_readyState s = 4 -> s_status s = 200 ->
  String.eqb (x_responseType this) "json" = false ->
  responseText_readable (x_responseType this) = false ->
  xhr_onreadystatechange (pre ++ c :: post) resend this body h initial_shadow s
  = ([], Throw InvalidStateError) /\
  ((forall c', In c' (pre ++ c :: post) -> beforeSendCallback c' = None) ->
   (forall rq, xhr_network rq = [s]) ->
   forall fuel,
     hijackXHR_send fuel (pre ++ c :: post) this body
     = ([NativeSend (request_of this body); UnhandledRejection InvalidStateError],
        Ok tt)).
Proof.
  intros Hpre Hm Hgen Hrs Hst Hjson Htext.
  assert (Hevent : forall resend' h',
    xhr_onreadystatechange (pre ++ c :: post) resend' this body h' initial_shadow s
    = ([], Throw InvalidStateError)).
  { intros resend' h'. unfold xhr_onreadystatechange.
    rewrite (view_of_native this s initial_shadow eq_refl).
    cbn [native_view readyState status]. rewrite Hrs, Hst. cbn [Z.eqb Pos.eqb andb].
    rewrite (xhr_response_skip_prefix resend' pre (c :: post) this body s h'
               initial_shadow Hpre).
    rewrite (xhr_response_unreadable resend' _ c post this body s h' initial_shadow u
               InvalidStateError Hm Hgen).
    - reflexivity.
    - unfold getResponseData, read_responseText, view_of.
      cbn [initial_shadow redefined text_access responseType].
      rewrite Hjson, Htext. reflexivity. }
  split; [apply Hevent|].
  intros Hhooks Hnet fuel.
  rewrite hijackXHR_send_unfold. unfold send_body.
  rewrite (xhr_beforeSend_no_hooks _ _ this body Hhooks).
  cbn [bind ret emit app]. rewrite Hnet. cbn [xhr_dispatch].
  rewrite Hevent. reflexivity.
Qed.

End UnreadableResponse.

Lemma xhr_unreadable_responseType_loses_completion_witness :
  handler_views
    (trace_of (hijackXHR_send (H := Scenario.same_host) 0 ([] ++ Scenario.watch_data :: [])
                 (mkXhr (Some Scenario.data_url) (Some "GET") (Some []) []
                    "arraybuffer" (Some page_handler))
                 JNull)) = [].
Proof.
  rewrite (proj2 (xhr_unreadable_responseType_loses_completion (H := Scenario.same_host)
                    [] [] Scenario.watch_data (fun _ _ => out_of_fuel)
                    (mkXhr (Some Scenario.data_url) (Some "GET") (Some []) []
                       "arraybuffer" (Some page_handler))
                    JNull (Some page_handler) Scenario.hello_completion
                    Scenario.data_URL (List.Forall_nil _) eq_refl eq_refl eq_refl eq_refl
                    eq_refl eq_refl)
             (fun c' Hc' => match Hc' with
                            | or_introl Heq => f_equal beforeSendCallback (eq_sym Heq)
                            | or_intror Hfalse => match Hfalse with end
                            end)
             (fun rq => eq_refl) 0%nat).
  reflexivity.
Defined.
